(** * Quiz option generation (car_picker/app/options.py)

    A shallow embedding of [build_option_label], [_candidate_indices] and
    [generate_options], and the properties of the distractor selector.

    Conventions of the embedding.
    - A pandas frame is the list of its rows in order, each with its index
      label.  [len(df)] is the number of rows, [df.index] the list of labels.
      [df.loc[label]] reads a row; it is embedded as the first row carrying
      the label, which is what pandas returns when the label occurs once.
      For a repeated label pandas hands back a sub-frame, on which the
      comparisons of the source raise an error of pandas' own; the
      statements about which error a call raises are therefore made for
      frames whose labels are pairwise distinct, [NoDup (index df)].
    - The cells read by the code are strings, as [load_metadata] and
      [LabelRow] produce them; [variant] is an optional column.
    - [selected_set] is a finite set of labels.  Python fixes no iteration
      order for a set; [list(selected_set)] is embedded as [elements].
    - [rng] is threaded explicitly: every [rng.shuffle] takes the current
      state and returns the permuted list with the advanced state.  The
      default [random.Random()] of the source is the caller's choice of a
      state here. *)

From Stdlib Require Import ZArith String Ascii List.
From stdpp Require Import base tactics option list sets gmap strings.

#[local] Set Warnings "-clear-no-such-hyp".
Local Open Scope Z_scope.

(** ** Label formatter *)

Record Row := mkRow {
  make_ko : string;
  make_en : string;
  model_ko : string;
  model_en : string;
  year : string;
  variant : option string;   (* [None]: the frame has no such column *)
}.

(** Truth value of a Python [str]: every string but the empty one. *)
Definition truthy (s : string) : bool := negb (String.eqb s "").

(** [" ".join(parts)] is [String.concat " " parts]. *)
Definition build_option_label (row : Row) : string :=
  let make :=
    if truthy (make_ko row)
    then make_ko row +:+ "(" +:+ make_en row +:+ ")"
    else make_en row in
  let model :=
    if truthy (model_ko row)
    then model_ko row +:+ "(" +:+ model_en row +:+ ")"
    else model_en row in
  let year := year row in
  let variant := default "" (variant row) in        (* row.get("variant", "") *)
  let components := [make; model; year] in
  let components :=
    if truthy variant then components ++ [variant] else components in
  String.concat " " (List.filter truthy components).

(** The formatter as section 4.1 of the specification words it: a segment
    rule shared by make and model, and a join that skips empty segments. *)
Definition segment (localized english : string) : string :=
  match localized with
  | EmptyString => english
  | _ => localized +:+ "(" +:+ english +:+ ")"
  end.

Fixpoint join_segments (segments : list string) : string :=
  match segments with
  | [] => ""
  | s :: rest =>
      match s, join_segments rest with
      | EmptyString, tail => tail
      | _, EmptyString => s
      | _, tail => s +:+ " " +:+ tail
      end
  end.

Definition label_of_segments (row : Row) : string :=
  join_segments
    [segment (make_ko row) (make_en row);
     segment (model_ko row) (model_en row);
     year row;
     default "" (variant row)].

(** ** Frames *)

Abbreviation DataFrame := (list (Z * Row)).

Definition index (df : DataFrame) : list Z := df.*1.

(** [df.loc[idx]], the row labelled [idx], for a label that occurs once.
    Under a repeated label [loc] reads the first of its rows, where pandas
    returns them all as a sub-frame; the outcome of a call is characterised
    below for frames with [NoDup (index df)]. *)
Fixpoint loc (df : DataFrame) (idx : Z) : option Row :=
  match df with
  | [] => None
  | (i, row) :: rest => if decide (i = idx) then Some row else loc rest idx
  end.

(** [df.loc[idx, "make_en"]]; a label outside the index raises in pandas,
    which the callers below never provoke: they only pass labels of [df]. *)
Definition loc_make_en (df : DataFrame) (idx : Z) : option string :=
  make_en <$> loc df idx.

Record OptionItem := mkOptionItem {
  row_idx : Z;
  label : string;
}.

(** The exceptions [generate_options] raises itself.  The specification
    calls them EmptyDatasetError, UnknownRecordError and
    InsufficientCandidatesError, in this order. *)
Inductive exn := ValueError | KeyError | RuntimeError.

Inductive result (A : Type) :=
  | Ok (a : A)
  | Raise (e : exn).
Arguments Ok {A} a.
Arguments Raise {A} e.

#[global] Instance exn_eq_dec : EqDecision exn.
Proof. solve_decision. Defined.

(** ** Randomness source

    The one operation the selector uses is [rng.shuffle(x)], which
    rearranges the list [x] in place and advances the generator.  That the
    result is a rearrangement of the argument is all the selector's
    properties rest on; which rearrangement is left to the generator. *)
Class RandomSource (G : Type) := {
  shuffle : G → list Z → list Z * G;
  shuffle_Permutation g l : (shuffle g l).1 ≡ₚ l;
}.

(** A concrete source: selection shuffle driven by a linear congruential
    generator. *)
Definition lcg_next (s : Z) : Z := (1103515245 * s + 12345) mod 2147483648.

Fixpoint lcg_shuffle_aux (n : nat) (s : Z) (l : list Z) : list Z * Z :=
  match n with
  | O => (l, s)
  | S n' =>
      let s' := lcg_next s in
      let j := Z.to_nat (s' mod Z.of_nat (length l)) in
      match l !! j with
      | Some x =>
          let '(rest, s'') := lcg_shuffle_aux n' s' (delete j l) in
          (x :: rest, s'')
      | None => (l, s')
      end
  end.

Definition lcg_shuffle (s : Z) (l : list Z) : list Z * Z :=
  lcg_shuffle_aux (length l) s l.

(** ** Distractor selector *)

Definition lower_char (c : ascii) : ascii :=
  let n := nat_of_ascii c in
  if ((65 <=? n) && (n <=? 90))%nat then ascii_of_nat (n + 32) else c.

(** [str.lower] on the ASCII letters.  The three difficulty names are
    ASCII, and no other character lower-cases to one of their letters. *)
Fixpoint lower (s : string) : string :=
  match s with
  | EmptyString => EmptyString
  | String c rest => String (lower_char c) (lower rest)
  end.

(** Case-insensitive reading of a name, as section 4.2 of the specification
    asks of the difficulty: two strings spell the same name when they have
    the same length and carry, position by position, the same character or
    the two cases of one letter.  The letters are tabulated; nothing here
    goes through [lower]. *)
Definition letter_cases : list (ascii * ascii) :=
  zip (list_ascii_of_string "ABCDEFGHIJKLMNOPQRSTUVWXYZ")
      (list_ascii_of_string "abcdefghijklmnopqrstuvwxyz").

Definition same_letter (c1 c2 : ascii) : bool :=
  Ascii.eqb c1 c2
  || existsb (λ p, (Ascii.eqb c1 p.1 && Ascii.eqb c2 p.2)
                   || (Ascii.eqb c1 p.2 && Ascii.eqb c2 p.1)) letter_cases.

Fixpoint same_up_to_case (s1 s2 : string) : bool :=
  match s1, s2 with
  | EmptyString, EmptyString => true
  | String c1 rest1, String c2 rest2 =>
      same_letter c1 c2 && same_up_to_case rest1 rest2
  | _, _ => false
  end.

Record Plan := mkPlan {
  same_make : Z;
  same_model : Z;
  same_year : Z;
}.

Definition difficulty_plan : gmap string Plan :=
  <["easy" := mkPlan 2 1 1]>
  (<["medium" := mkPlan 4 2 2]>
  (<["hard" := mkPlan 6 3 1]> ∅)).

(** [difficulty_plan.get(difficulty, difficulty_plan["medium"])] *)
Definition plan_for (difficulty : string) : Plan :=
  default (mkPlan 4 2 2) (difficulty_plan !! difficulty).

Definition _candidate_indices
    (df : DataFrame) (mask : Z * Row → bool) (exclude : gset Z) : list Z :=
  filter (λ idx, idx ∉ exclude) (index (List.filter mask df)).

(** The loop shared by [try_add] and the fill phase:
    [for idx in ids: selected_set.add(idx); if len(selected_set) >=
    total_options: return/break]. *)
Fixpoint add_until (total_options : Z) (ids : list Z) (selected_set : gset Z)
    : gset Z :=
  match ids with
  | [] => selected_set
  | idx :: rest =>
      let selected_set := {[idx]} ∪ selected_set in
      if total_options <=? Z.of_nat (size selected_set) then selected_set
      else add_until total_options rest selected_set
  end.

(** The three boolean masks of the quota phase, row by row. *)
Definition same_make_mask (correct_idx : Z) (correct_row : Row)
    : Z * Row → bool :=
  λ '(idx, row),
    String.eqb (make_en row) (make_en correct_row) && negb (idx =? correct_idx).

Definition same_model_mask (correct_idx : Z) (correct_row : Row)
    : Z * Row → bool :=
  λ '(idx, row),
    String.eqb (model_en row) (model_en correct_row)
    && negb (String.eqb (year row) (year correct_row))
    && negb (idx =? correct_idx).

Definition same_year_mask (correct_idx : Z) (correct_row : Row)
    : Z * Row → bool :=
  λ '(idx, row),
    String.eqb (year row) (year correct_row) && negb (idx =? correct_idx).

Section Selector.
Context {G : Type} `{RandomSource G}.

(** The state the closure [try_add] works on: the captured
    [selected_set] and the generator. *)
Definition try_add (df : DataFrame) (correct_row : Row) (total_options : Z)
    (mask : Z * Row → bool) (target : Z) (different_make : bool)
    (st : gset Z * G) : gset Z * G :=
  let '(selected_set, rng) := st in
  if (total_options <=? Z.of_nat (size selected_set)) || (target <=? 0)
  then st
  else
    let candidates := _candidate_indices df mask selected_set in
    let candidates :=
      if different_make
      then filter (λ idx, loc_make_en df idx ≠ Some (make_en correct_row))
                  candidates
      else candidates in
    let '(candidates, rng) := shuffle rng candidates in
    (add_until total_options (take (Z.to_nat target) candidates) selected_set,
     rng).

Definition after_same_make (df : DataFrame) (correct_idx : Z)
    (correct_row : Row) (total_options : Z) (difficulty : string) (rng : G)
    : gset Z * G :=
  try_add df correct_row total_options
    (same_make_mask correct_idx correct_row)
    (same_make (plan_for difficulty)) false
    ({[correct_idx]}, rng).

Definition after_same_model (df : DataFrame) (correct_idx : Z)
    (correct_row : Row) (total_options : Z) (difficulty : string) (rng : G)
    : gset Z * G :=
  try_add df correct_row total_options
    (same_model_mask correct_idx correct_row)
    (same_model (plan_for difficulty)) false
    (after_same_make df correct_idx correct_row total_options difficulty rng).

Definition after_same_year (df : DataFrame) (correct_idx : Z)
    (correct_row : Row) (total_options : Z) (difficulty : string) (rng : G)
    : gset Z * G :=
  try_add df correct_row total_options
    (same_year_mask correct_idx correct_row)
    (same_year (plan_for difficulty))
    (bool_decide (difficulty = "easy"))
    (after_same_model df correct_idx correct_row total_options difficulty rng).

(** "Fill the remaining slots." *)
Definition fill (df : DataFrame) (correct_row : Row) (total_options : Z)
    (difficulty : string) (st : gset Z * G) : gset Z * G :=
  let '(selected_set, rng) := st in
  if Z.of_nat (size selected_set) <? total_options then
    let remaining_indices :=
      filter (λ idx, idx ∉ selected_set) (index df) in
    let '(ordered_indices, rng) :=
      if bool_decide (difficulty = "easy") then
        let '(remaining_indices, rng) := shuffle rng remaining_indices in
        let different_make_indices :=
          filter (λ idx, loc_make_en df idx ≠ Some (make_en correct_row))
                 remaining_indices in
        let same_make_indices :=
          filter (λ idx, loc_make_en df idx = Some (make_en correct_row))
                 remaining_indices in
        (different_make_indices ++ same_make_indices, rng)
      else if bool_decide (difficulty = "hard") then
        let '(remaining_indices, rng) := shuffle rng remaining_indices in
        let same_make_indices :=
          filter (λ idx, loc_make_en df idx = Some (make_en correct_row))
                 remaining_indices in
        let different_make_indices :=
          filter (λ idx, loc_make_en df idx ≠ Some (make_en correct_row))
                 remaining_indices in
        (same_make_indices ++ different_make_indices, rng)
      else
        shuffle rng remaining_indices in
    (add_until total_options ordered_indices selected_set, rng)
  else st.

(** The quota phase followed by the fill phase: the final [selected_set]
    and the generator as the two phases leave it. *)
Definition select (df : DataFrame) (correct_idx : Z) (correct_row : Row)
    (total_options : Z) (difficulty : string) (rng : G) : gset Z * G :=
  fill df correct_row total_options difficulty
    (after_same_year df correct_idx correct_row total_options difficulty rng).

(** [OptionItem(row_idx=idx, label=build_option_label(df.loc[idx]))] for
    every [idx]; [df.loc] raises [KeyError] on a label outside the index. *)
Fixpoint build_items (df : DataFrame) (ids : list Z)
    : result (list OptionItem) :=
  match ids with
  | [] => Ok []
  | idx :: rest =>
      match loc df idx with
      | None => Raise KeyError
      | Some row =>
          match build_items df rest with
          | Ok items => Ok (mkOptionItem idx (build_option_label row) :: items)
          | Raise e => Raise e
          end
      end
  end.

Definition generate_options (df : DataFrame) (correct_idx : Z)
    (total_options : Z) (difficulty : string) (rng : G)
    : result (list OptionItem) * G :=
  let available_count := Z.of_nat (length df) in
  if available_count =? 0 then (Raise ValueError, rng)
  else
    let total_options := Z.max 2 (Z.min total_options available_count) in
    match loc df correct_idx with
    | None => (Raise KeyError, rng)          (* correct_idx not in df.index *)
    | Some correct_row =>
        let difficulty := lower difficulty in
        let '(selected_set, rng) :=
          select df correct_idx correct_row total_options difficulty rng in
        let selected_list := elements selected_set in
        if Z.of_nat (length selected_list) <? total_options
        then (Raise RuntimeError, rng)
        else
          let '(selected_list, rng) := shuffle rng selected_list in
          (build_items df (take (Z.to_nat total_options) selected_list), rng)
    end.

End Selector.

(** What every phase keeps true of [selected_set]: it holds the correct
    label, only labels of the frame, and no more than [total_options] of
    them. *)
Definition selection_inv (df : DataFrame) (correct_idx total_options : Z)
    (selected_set : gset Z) : Prop :=
  correct_idx ∈ selected_set
  ∧ (∀ idx, idx ∈ selected_set → idx ∈ index df)
  ∧ Z.of_nat (size selected_set) ≤ total_options.

(** Number of distinct labels of a frame. *)
Definition distinct_labels (df : DataFrame) : nat :=
  size (list_to_set (index df) : gset Z).

(** * The quiz session (app/scoring.py, app/streamlit_app.py)

    The functions of the application that call the selector and score the
    answers.  [st.session_state] is a record of the keys these functions
    read or write; the keys only the clock and the page use
    ([question_start_ts], [session_id], [summary_logged], the widget key
    [selected_option]) and the response times are left out, and so is the
    CSV log written on the way: none of them feeds back into the keys
    kept. *)

Definition POINTS_PER_QUESTION : Z := 10.
Definition TOTAL_QUESTIONS : Z := 10.

Definition score_answer (is_correct : bool) : Z :=
  if is_correct then POINTS_PER_QUESTION else 0.

Definition max_score : Z := POINTS_PER_QUESTION * TOTAL_QUESTIONS.

(** One entry of [st.session_state["history"]]. *)
Record HistoryEntry := mkHistoryEntry {
  question : Z;
  selected_label : string;
  correct_label : string;
  is_correct : bool;
}.

Record Session := mkSession {
  question_order : list Z;
  current_question_idx : Z;
  total_questions : Z;
  score : Z;
  history : list HistoryEntry;
  current_options : option (list OptionItem);
  ended_early : bool;
  difficulty : string;
}.

(** What the application functions raise: [IndexError] from indexing
    [question_order], [KeyError] from [df.loc], whatever
    [generate_options] raises, and the [RuntimeError] of
    [ensure_current_options] itself ("Failed to generate the expected
    number of options."). *)
Inductive app_exn :=
  | IndexError
  | LocKeyError
  | OptionsError (e : exn)
  | OptionCountError.

Inductive app_result (A : Type) :=
  | AOk (a : A)
  | ARaise (e : app_exn).
Arguments AOk {A} a.
Arguments ARaise {A} e.

(** [l[i]] on a Python list: a negative [i] counts from the end. *)
Definition list_getitem {A} (l : list A) (i : Z) : option A :=
  if 0 <=? i then l !! Z.to_nat i
  else if - Z.of_nat (length l) <=? i
       then l !! Z.to_nat (Z.of_nat (length l) + i)
       else None.

(** [init_session_state] on a session not yet initialised.  [sample] is
    what [random.sample(range(total_available), total_questions)] returns;
    [None] is [st.stop()] on an empty frame. *)
Definition init_session_state (df : DataFrame) (difficulty : string)
    (sample : list Z) : option Session :=
  let total_available := Z.of_nat (length df) in
  if total_available =? 0 then None
  else
    let total_questions := Z.min TOTAL_QUESTIONS total_available in
    Some {| question_order := sample;
            current_question_idx := 0;
            total_questions := total_questions;
            score := 0;
            history := [];
            current_options := None;
            ended_early := false;
            difficulty := difficulty |}.

(** The row of the current question with its label (the [name] of the
    pandas row). *)
Definition get_current_dataframe_row (df : DataFrame) (s : Session)
    : app_result (Z * Row) :=
  match list_getitem (question_order s) (current_question_idx s) with
  | None => ARaise IndexError
  | Some idx =>
      match loc df idx with
      | None => ARaise LocKeyError
      | Some row => AOk (idx, row)
      end
  end.

Definition has_finished (s : Session) : bool :=
  let reached_end := total_questions s <=? current_question_idx s in
  reached_end || ended_early s.

Definition handle_submission (df : DataFrame) (correct_name : Z)
    (correct_row : Row) (selected_option : option OptionItem) (s : Session)
    : app_result Session :=
  match selected_option with
  | None => AOk s
  | Some selected_option =>
      match loc df (row_idx selected_option) with
      | None => ARaise LocKeyError
      | Some selected_row =>
          let is_correct :=
            bool_decide (row_idx selected_option = correct_name) in
          AOk {| question_order := question_order s;
                 current_question_idx := current_question_idx s + 1;
                 total_questions := total_questions s;
                 score := score s + score_answer is_correct;
                 history :=
                   history s ++
                   [{| question := current_question_idx s + 1;
                       selected_label := label selected_option;
                       correct_label := build_option_label correct_row;
                       is_correct := is_correct |}];
                 current_options := None;
                 ended_early := ended_early s;
                 difficulty := difficulty s |}
      end
  end.

(** [correct_answers] as [log_summary] and [display_summary] count it. *)
Definition correct_answers (s : Session) : nat :=
  length (List.filter is_correct (history s)).

Section Application.
Context {G : Type} `{RandomSource G}.

(** [rng] is the state of the [random.Random()] made for the call; the
    result comes with the session as the call leaves it. *)
Definition ensure_current_options (df : DataFrame) (s : Session) (rng : G)
    : app_result (list OptionItem) * Session :=
  match current_options s with
  | Some options => (AOk options, s)
  | None =>
      match list_getitem (question_order s) (current_question_idx s) with
      | None => (ARaise IndexError, s)
      | Some correct_idx =>
          let wanted := Z.min 10 (Z.of_nat (length df)) in
          match (generate_options df correct_idx wanted (difficulty s) rng).1
          with
          | Raise e => (ARaise (OptionsError e), s)
          | Ok options =>
              let s' :=
                {| question_order := question_order s;
                   current_question_idx := current_question_idx s;
                   total_questions := total_questions s;
                   score := score s;
                   history := history s;
                   current_options := Some options;
                   ended_early := ended_early s;
                   difficulty := difficulty s |} in
              if negb (Z.of_nat (length options) =? wanted)
              then (ARaise OptionCountError, s')
              else (AOk options, s')
          end
      end
  end.

(** The sessions a quiz goes through by the calls [main] makes: it starts
    from [init_session_state]; while [has_finished] does not hold, options
    are generated for the current question, a submission is handled for
    it, or the quiz is ended early, which [main] allows when [can_end]
    holds. *)
Inductive quiz_session (df : DataFrame) : Session → Prop :=
  | quiz_started difficulty sample s :
      init_session_state df difficulty sample = Some s →
      quiz_session df s
  | quiz_options s (rng : G) :
      quiz_session df s →
      has_finished s = false →
      quiz_session df (ensure_current_options df s rng).2
  | quiz_answered s correct_name correct_row selected_option s' :
      quiz_session df s →
      has_finished s = false →
      get_current_dataframe_row df s = AOk (correct_name, correct_row) →
      handle_submission df correct_name correct_row selected_option s
        = AOk s' →
      quiz_session df s'
  | quiz_ended s :
      quiz_session df s →
      has_finished s = false →
      (60 <=? score s) || (total_questions s <? current_question_idx s + 1)
        = true →                                             (* can_end *)
      quiz_session df
        {| question_order := question_order s;
           current_question_idx := current_question_idx s;
           total_questions := total_questions s;
           score := score s;
           history := history s;
           current_options := current_options s;
           ended_early := true;
           difficulty := difficulty s |}.

End Application.

(** * Labels from file names (data/build_metadata.py) *)

(** [s.split(sep)] for a separator of one character: the parts between
    the occurrences of [sep], empty parts included. *)
Fixpoint str_split (sep : ascii) (s : string) : list string :=
  match s with
  | EmptyString => [EmptyString]
  | String c rest =>
      if Ascii.eqb c sep then EmptyString :: str_split sep rest
      else
        match str_split sep rest with
        | part :: parts => String c part :: parts
        | [] => [String c EmptyString]
        end
  end.

Definition is_digit (c : ascii) : bool :=
  let n := nat_of_ascii c in ((48 <=? n) && (n <=? 57))%nat.

(** [str.isdigit] read on ASCII: a non-empty string of the digits 0 to 9.
    (Python also takes digits outside ASCII; the properties that depend on
    it are stated for ASCII names.) *)
Definition isdigit (s : string) : bool :=
  truthy s && forallb is_digit (list_ascii_of_string s).

Definition ascii_only (s : string) : bool :=
  forallb (λ c, (nat_of_ascii c <? 128)%nat) (list_ascii_of_string s).

(** The loop over [(year_token, year_token[:4])], leaving at the first
    token of four characters or more that starts with four digits;
    [year] is initially the empty string. *)
Fixpoint first_year (tokens : list string) : string :=
  match tokens with
  | [] => ""
  | token :: rest =>
      if (4 <=? String.length token)%nat && isdigit (substring 0 4 token)
      then substring 0 4 token
      else first_year rest
  end.

(** [name] is [path.stem]. *)
Definition parse_metadata_from_filename (name : string)
    : result (string * string * string) :=
  let parts := str_split "_" name in
  if (length parts <? 3)%nat then Raise ValueError
  else
    match parts with
    | make :: model :: year_token :: _ =>
        let year := first_year [year_token; substring 0 4 year_token] in
        if negb (truthy year) then Raise ValueError
        else Ok (make, model, year)
    | _ => Raise ValueError
    end.

(** * The CSV logs (app/storage.py)

    A file is the list of the lines written to it, a line the list of its
    cells; [None] is a path with no file.  A file of no line has size 0,
    and every line the writer writes ends with a line terminator, so
    [path.exists() and path.stat().st_size > 0] is "the file has a line".
    A row is the dictionary handed to [csv.DictWriter.writerow], which
    fills the columns the row lacks with the empty string and raises
    [ValueError] on a key that is no column. *)

Definition csv_line (columns : list string) (row : gmap string string)
    : list string :=
  (λ column, default "" (row !! column)) <$> columns.

Definition _append_row (file : option (list (list string)))
    (columns : list string) (row : gmap string string)
    : result unit * option (list (list string)) :=
  let file_exists :=
    match file with
    | Some (_ :: _) => true
    | _ => false
    end in
  let content := default [] file in            (* open("a") makes the file *)
  let content :=
    if file_exists then content else content ++ [columns] in (* writeheader *)
  if decide (dom row ⊆ list_to_set columns)
  then (Ok (), Some (content ++ [csv_line columns row]))
  else (Raise ValueError, Some content).

(** The file after a run of [_append_row] calls on it, whether or not
    they raise. *)
Definition append_rows (file : option (list (list string)))
    (columns : list string) (rows : list (gmap string string))
    : option (list (list string)) :=
  foldl (λ file row, (_append_row file columns row).2) file rows.

(** ** Sample frames *)

Definition sample_row (make model yr : string) : Row :=
  mkRow make make "" model yr (Some "").

(** Five rows, four of one make, no two sharing model or year. *)
Definition sample_frame : DataFrame :=
  [(0, sample_row "Kia" "Rio" "2011");
   (1, sample_row "Kia" "Soul" "2012");
   (2, sample_row "Kia" "Optima" "2013");
   (3, sample_row "Kia" "Sorento" "2014");
   (4, sample_row "Ford" "Focus" "2015")].

(** Rows sharing model and year with row 10 in turn. *)
Definition mixed_frame : DataFrame :=
  [(10, sample_row "Kia" "Rio" "2011");
   (11, sample_row "Ford" "Rio" "2012");
   (12, sample_row "Ford" "Focus" "2011");
   (13, sample_row "Audi" "A4" "2011");
   (14, sample_row "Kia" "Soul" "2011")].

Definition single_row_frame : DataFrame :=
  [(7, sample_row "Kia" "Rio" "2011")].

(** ** The concrete source is a randomness source *)

Lemma lcg_shuffle_aux_Permutation n s l : (lcg_shuffle_aux n s l).1 ≡ₚ l.
Proof.
  revert s l. induction n as [|n IH]; intros s l; simpl; [done|].
  destruct (l !! _) as [x|] eqn:Hx; [|done].
  specialize (IH (lcg_next s) (delete (Z.to_nat (lcg_next s mod Z.of_nat (length l))) l)).
  destruct (lcg_shuffle_aux n _ _) as [rest s'']. simpl in *.
  rewrite IH. symmetry. by apply delete_Permutation.
Qed.

#[global] Instance lcg_source : RandomSource Z := {|
  shuffle := lcg_shuffle;
  shuffle_Permutation s l := lcg_shuffle_aux_Permutation (length l) s l;
|}.

(** ** Frames: lookups *)

Lemma loc_None df idx : loc df idx = None ↔ idx ∉ index df.
Proof.
  unfold index. induction df as [|[i row] df IH]; simpl.
  - split; [intros _; apply not_elem_of_nil | done].
  - rewrite not_elem_of_cons. destruct (decide (i = idx)) as [->|Hne].
    + split; [done | intros [? _]; done].
    + rewrite IH. split; [intros ?; split; [congruence | done] | intros [_ ?]; done].
Qed.

Lemma loc_is_Some df idx : is_Some (loc df idx) ↔ idx ∈ index df.
Proof.
  rewrite <- not_eq_None_Some, loc_None.
  split; [apply dec_stable | intros ? Hn; done].
Qed.

Lemma loc_Some_elem_of df idx row : loc df idx = Some row → (idx, row) ∈ df.
Proof.
  induction df as [|[i r] df IH]; simpl; [done|].
  destruct (decide (i = idx)) as [->|Hne].
  - intros [= ->]. apply list_elem_of_here.
  - intros ?. apply list_elem_of_further. auto.
Qed.

Lemma loc_unique df idx row :
  NoDup (index df) → (idx, row) ∈ df → loc df idx = Some row.
Proof.
  unfold index. induction df as [|[i r] df IH]; simpl.
  - intros _ Hin. by apply elem_of_nil in Hin.
  - rewrite NoDup_cons. intros [Hi Hnd] Hin.
    apply elem_of_cons in Hin as [[= <- <-]|Hin].
    + by rewrite decide_True.
    + rewrite decide_False; [by apply IH|].
      intros ->. apply Hi. apply list_elem_of_fmap. by exists (idx, row).
Qed.

Lemma length_index df : length (index df) = length df.
Proof. unfold index. apply length_fmap. Qed.

(** ** The insertion loop *)

Lemma add_until_subseteq total ids (sel : gset Z) :
  sel ⊆ add_until total ids sel.
Proof.
  revert sel. induction ids as [|idx ids IH]; intros sel; simpl; [done|].
  case_match; [set_solver|]. etrans; [|apply IH]. set_solver.
Qed.

Lemma add_until_elem_of total ids (sel : gset Z) x :
  x ∈ add_until total ids sel → x ∈ sel ∨ x ∈ ids.
Proof.
  revert sel. induction ids as [|idx ids IH]; intros sel; simpl; [auto|].
  destruct (total <=? _).
  - set_solver.
  - intros Hx. apply IH in Hx. set_solver.
Qed.

Lemma size_add_one (sel : gset Z) idx :
  (size ({[idx]} ∪ sel) ≤ S (size sel))%nat.
Proof.
  rewrite size_union_alt, size_singleton.
  assert (size (sel ∖ {[idx]}) ≤ size sel)%nat by (apply subseteq_size; set_solver).
  lia.
Qed.

Lemma add_until_size total ids (sel : gset Z) :
  Z.of_nat (size sel) < total →
  Z.of_nat (size (add_until total ids sel)) ≤ total.
Proof.
  revert sel. induction ids as [|idx ids IH]; intros sel Hlt; simpl; [lia|].
  pose proof (size_add_one sel idx).
  destruct (total <=? _) eqn:Hfull.
  - apply Z.leb_le in Hfull. lia.
  - apply Z.leb_gt in Hfull. by apply IH.
Qed.

(** Either the loop fills the set up to [total_options], or it runs out of
    identifiers and has added every one of them. *)
Lemma add_until_full total ids (sel : gset Z) :
  Z.of_nat (size sel) < total →
  Z.of_nat (size (add_until total ids sel)) = total
  ∨ (Z.of_nat (size (add_until total ids sel)) < total
     ∧ add_until total ids sel = sel ∪ list_to_set ids).
Proof.
  revert sel. induction ids as [|idx ids IH]; intros sel Hlt; simpl.
  - right. split; [done | set_solver].
  - pose proof (size_add_one sel idx).
    destruct (total <=? _) eqn:Hfull.
    + apply Z.leb_le in Hfull. left. lia.
    + apply Z.leb_gt in Hfull.
      destruct (IH _ Hfull) as [Hsz|[Hsz Heq]]; [by left|].
      right. split; [done|]. rewrite Heq. set_solver.
Qed.

(** ** The phases of the selector *)

Section SelectorFacts.
Context {G : Type} `{RandomSource G}.

Lemma elem_of_shuffle (rng : G) (l : list Z) x :
  x ∈ (shuffle rng l).1 ↔ x ∈ l.
Proof. by rewrite (shuffle_Permutation rng l). Qed.

Lemma elem_of_candidate_indices df mask (exclude : gset Z) idx :
  idx ∈ _candidate_indices df mask exclude ↔
  (idx ∉ exclude) ∧ (∃ row, (idx, row) ∈ df ∧ mask (idx, row) = true).
Proof.
  unfold _candidate_indices, index.
  rewrite list_elem_of_filter, list_elem_of_fmap.
  split; intros [Hex Hrow]; (split; [done|]).
  - destruct Hrow as ([i row] & -> & Hin). simpl.
    apply list_elem_of_In, filter_In in Hin as [Hin Hm].
    exists row. by rewrite list_elem_of_In.
  - destruct Hrow as (row & Hin & Hm). exists (idx, row). split; [done|].
    apply list_elem_of_In, filter_In. by rewrite <- list_elem_of_In.
Qed.

(** [try_add] only ever grows the set. *)
Lemma try_add_mono df row total mask target dm (st : gset Z * G) :
  st.1 ⊆ (try_add df row total mask target dm st).1.
Proof.
  unfold try_add. destruct st as [sel rng]. simpl.
  destruct (_ || _); [done|].
  destruct (shuffle rng _) as [cands rng']. simpl.
  apply add_until_subseteq.
Qed.

(** What [try_add] adds are labels of rows its mask holds for, and with
    [different_make] labels whose row has another make. *)
Lemma try_add_added df row total mask target dm (st : gset Z * G) idx :
  idx ∈ (try_add df row total mask target dm st).1 →
  idx ∉ st.1 →
  (∃ r, (idx, r) ∈ df ∧ mask (idx, r) = true)
  ∧ (dm = true → loc_make_en df idx ≠ Some (make_en row)).
Proof.
  unfold try_add. destruct st as [sel rng]. simpl.
  destruct (_ || _); [done|].
  destruct (shuffle rng _) as [cands rng'] eqn:Hsh. simpl.
  intros [Hin|Hin]%add_until_elem_of Hnot; [done|].
  apply (subseteq_take (Z.to_nat target)) in Hin.
  assert (Hc : idx ∈ (shuffle rng
     (if dm then filter (λ idx, loc_make_en df idx ≠ Some (make_en row))
                        (_candidate_indices df mask sel)
      else _candidate_indices df mask sel)).1) by (by rewrite Hsh).
  apply elem_of_shuffle in Hc. clear Hsh. destruct dm.
  - apply list_elem_of_filter in Hc as [Hmk Hc].
    apply elem_of_candidate_indices in Hc as [_ Hc]. done.
  - apply elem_of_candidate_indices in Hc as [_ Hc]. done.
Qed.

Lemma try_add_inv df c row total mask target dm (st : gset Z * G) :
  selection_inv df c total st.1 →
  selection_inv df c total (try_add df row total mask target dm st).1.
Proof.
  intros (Hc & Hsub & Hsz).
  pose proof (try_add_mono df row total mask target dm st) as Hmono.
  split; [set_solver|]. split.
  - intros idx Hin. destruct (decide (idx ∈ st.1)) as [|Hnot]; [auto|].
    destruct (try_add_added _ _ _ _ _ _ _ _ Hin Hnot) as [(r & Hr & _) _].
    unfold index. apply list_elem_of_fmap. by exists (idx, r).
  - unfold try_add. destruct st as [sel rng]. simpl in *.
    destruct (total <=? _) eqn:Hfull; simpl; [done|].
    destruct (target <=? 0); simpl; [done|].
    destruct (shuffle rng _) as [cands rng']. simpl.
    apply Z.leb_gt in Hfull. by apply add_until_size.
Qed.

(** The fill phase walks a list holding exactly the labels not selected
    yet, whatever the difficulty. *)
Lemma fill_unfold df row total d (sel : gset Z) (rng : G) :
  Z.of_nat (size sel) < total →
  ∃ ordered rng',
    fill df row total d (sel, rng) = (add_until total ordered sel, rng')
    ∧ ∀ idx, idx ∈ ordered ↔ idx ∈ index df ∧ idx ∉ sel.
Proof.
  intros Hlt. unfold fill. apply Z.ltb_lt in Hlt. rewrite Hlt.
  set (remaining := filter (λ idx, idx ∉ sel) (index df)).
  assert (Hrem : ∀ idx (rng0 : G),
    idx ∈ (shuffle rng0 remaining).1 ↔ idx ∈ index df ∧ idx ∉ sel).
  { intros idx rng0. rewrite elem_of_shuffle. unfold remaining.
    rewrite list_elem_of_filter. tauto. }
  destruct (bool_decide (d = "easy")); [|destruct (bool_decide (d = "hard"))].
  - specialize (Hrem) with (rng0 := rng).
    destruct (shuffle rng remaining) as [l rng']. simpl in Hrem.
    eexists _, _. split; [reflexivity|]. intros idx.
    rewrite elem_of_app, !list_elem_of_filter, <- Hrem.
    destruct (decide (loc_make_en df idx = Some (make_en row))); tauto.
  - specialize (Hrem) with (rng0 := rng).
    destruct (shuffle rng remaining) as [l rng']. simpl in Hrem.
    eexists _, _. split; [reflexivity|]. intros idx.
    rewrite elem_of_app, !list_elem_of_filter, <- Hrem.
    destruct (decide (loc_make_en df idx = Some (make_en row))); tauto.
  - specialize (Hrem) with (rng0 := rng).
    destruct (shuffle rng remaining) as [l rng']. simpl in Hrem.
    eexists _, _. split; [reflexivity|]. done.
Qed.

Lemma fill_inv df c row total d (st : gset Z * G) :
  selection_inv df c total st.1 →
  selection_inv df c total (fill df row total d st).1.
Proof.
  destruct st as [sel rng]. cbn [fst]. intros (Hc & Hsub & Hsz).
  destruct (decide (Z.of_nat (size sel) < total)) as [Hlt|Hge].
  - destruct (fill_unfold df row total d sel rng Hlt) as (ordered & rng' & -> & Hord).
    cbn [fst]. split; [by apply add_until_subseteq|]. split.
    + intros idx [?|Hin%Hord]%add_until_elem_of; [auto | tauto].
    + by apply add_until_size.
  - unfold fill. apply Z.ltb_nlt in Hge. by rewrite Hge.
Qed.

(** After the fill phase the set is full, or it holds every label of the
    frame and is still short. *)
Lemma fill_full df c row total d (st : gset Z * G) :
  selection_inv df c total st.1 →
  Z.of_nat (size (fill df row total d st).1) = total
  ∨ (Z.of_nat (size (fill df row total d st).1) < total
     ∧ (fill df row total d st).1 = list_to_set (index df)).
Proof.
  destruct st as [sel rng]. cbn [fst]. intros (Hc & Hsub & Hsz).
  destruct (decide (Z.of_nat (size sel) < total)) as [Hlt|Hge].
  - destruct (fill_unfold df row total d sel rng Hlt) as (ordered & rng' & -> & Hord).
    cbn [fst]. destruct (add_until_full total ordered sel Hlt) as [Hsz'|[Hsz' Heq]];
      [by left|].
    right. split; [done|]. rewrite Heq. apply set_eq. intros idx.
    rewrite elem_of_union, !elem_of_list_to_set, Hord.
    destruct (decide (idx ∈ sel)); naive_solver.
  - left. unfold fill. apply Z.ltb_nlt in Hge. rewrite Hge. simpl. lia.
Qed.

Lemma select_inv df c row total d (rng : G) :
  c ∈ index df → 1 ≤ total →
  selection_inv df c total (select df c row total d rng).1.
Proof.
  intros Hc Htot. unfold select, after_same_year, after_same_model, after_same_make.
  apply fill_inv. do 3 apply try_add_inv. simpl.
  split; [set_solver|]. split.
  - intros idx ->%elem_of_singleton. done.
  - rewrite size_singleton. lia.
Qed.

(** The two phases reach [total_options] exactly when the frame has that
    many distinct labels. *)
Lemma select_size df c row total d (rng : G) :
  c ∈ index df → 1 ≤ total →
  Z.of_nat (size (select df c row total d rng).1)
  = Z.min total (Z.of_nat (distinct_labels df)).
Proof.
  intros Hc Htot.
  pose proof (select_inv df c row total d rng Hc Htot) as Hinv.
  assert (Hle : (size (select df c row total d rng).1 ≤ distinct_labels df)%nat).
  { unfold distinct_labels. apply subseteq_size. intros idx Hin.
    apply elem_of_list_to_set. by apply Hinv. }
  unfold select in *.
  destruct (fill_full df c row total d
    (after_same_year df c row total d rng)) as [Heq|[Hlt Heq]].
  - unfold after_same_year, after_same_model, after_same_make.
    do 3 apply try_add_inv. simpl. split; [set_solver|]. split.
    + intros idx ->%elem_of_singleton. done.
    + rewrite size_singleton. lia.
  - lia.
  - unfold distinct_labels. rewrite <- Heq. lia.
Qed.

Lemma build_items_spec df ids :
  match build_items df ids with
  | Ok items =>
      row_idx <$> items = ids
      ∧ Forall (λ it, ∃ row, loc df (row_idx it) = Some row
                            ∧ label it = build_option_label row) items
  | Raise e => e = KeyError ∧ ∃ idx, idx ∈ ids ∧ idx ∉ index df
  end.
Proof.
  induction ids as [|idx ids IH]; simpl; [by split|].
  destruct (loc df idx) as [row|] eqn:Hloc.
  - destruct (build_items df ids) as [items|e].
    + destruct IH as [<- Hall]. split; [done|].
      constructor; [by exists row | done].
    + destruct IH as [-> (i & Hi & Hni)]. split; [done|].
      exists i. split; [by apply list_elem_of_further | done].
  - split; [done|]. exists idx. split; [apply list_elem_of_here|].
    by apply loc_None.
Qed.

(** The four ways a call can end, with what each says about the input. *)
Lemma generate_options_cases df c t d (rng : G) :
  let total := Z.max 2 (Z.min t (Z.of_nat (length df))) in
  match (generate_options df c t d rng).1 with
  | Raise ValueError => df = []
  | Raise KeyError => df ≠ [] ∧ c ∉ index df
  | Raise RuntimeError =>
      df ≠ [] ∧ ∃ row, loc df c = Some row
        ∧ Z.of_nat (size (select df c row total (lower d) rng).1) < total
  | Ok items =>
      df ≠ [] ∧ ∃ row, loc df c = Some row
        ∧ Z.of_nat (size (select df c row total (lower d) rng).1) = total
        ∧ row_idx <$> items ≡ₚ elements (select df c row total (lower d) rng).1
  end.
Proof.
  intros total. unfold generate_options. fold total.
  destruct (decide (df = [])) as [Hnil|Hne]; [by rewrite Hnil|].
  assert (Hlen : (Z.of_nat (length df) =? 0) = false).
  { apply Z.eqb_neq. destruct df; [done | simpl; lia]. }
  rewrite Hlen. clear Hlen.
  destruct (loc df c) as [row|] eqn:Hloc; cbn [fst].
  2: { split; [done|]. by apply loc_None. }
  assert (Hc : c ∈ index df) by (apply loc_is_Some; eauto).
  assert (Htot : 1 ≤ total) by (unfold total; lia).
  pose proof (select_inv df c row total (lower d) rng Hc Htot) as (_ & Hsub & Hsz).
  destruct (select df c row total (lower d) rng) as [sel rng1] eqn:Hsel.
  cbn [fst] in *.
  change (length (elements sel)) with (size sel).
  destruct (Z.of_nat (size sel) <? total) eqn:Hshort; cbn [fst].
  - apply Z.ltb_lt in Hshort. split; [done|]. exists row. by rewrite Hsel.
  - apply Z.ltb_ge in Hshort.
    pose proof (shuffle_Permutation rng1 (elements sel)) as Hperm.
    destruct (shuffle rng1 (elements sel)) as [l rng2]. cbn [fst] in *.
    assert (Hl : length l = size sel) by (by rewrite Hperm).
    rewrite take_ge by lia.
    pose proof (build_items_spec df l) as Hitems.
    destruct (build_items df l) as [items|e].
    + destruct Hitems as [Hids _]. split; [done|]. exists row.
      rewrite Hsel. cbn [fst].
      split; [done|]. split; [lia|]. by rewrite Hids.
    + exfalso. destruct Hitems as [_ (idx & Hin & Hnot)]. apply Hnot, Hsub.
      apply elem_of_elements. by rewrite <- Hperm.
Qed.

(** The same, read off the frame alone: which of the four outcomes a call
    has is decided by the frame, the label and the requested count. *)
Lemma generate_options_outcome df c t d (rng : G) :
  let total := Z.max 2 (Z.min t (Z.of_nat (length df))) in
  match (generate_options df c t d rng).1 with
  | Raise ValueError => df = []
  | Raise KeyError => df ≠ [] ∧ c ∉ index df
  | Raise RuntimeError =>
      df ≠ [] ∧ c ∈ index df ∧ Z.of_nat (distinct_labels df) < total
  | Ok items =>
      df ≠ [] ∧ c ∈ index df ∧ total ≤ Z.of_nat (distinct_labels df)
      ∧ Z.of_nat (length items) = total
      ∧ NoDup (row_idx <$> items)
      ∧ c ∈ row_idx <$> items
  end.
Proof.
  intros total. pose proof (generate_options_cases df c t d rng) as Hcases.
  fold total in Hcases.
  assert (Htot : 1 ≤ total) by (unfold total; lia).
  destruct (generate_options df c t d rng).1 as [items|[| |]]; [|done|done|].
  - destruct Hcases as (Hne & row & Hloc & Hsz & Hperm).
    assert (Hc : c ∈ index df) by (apply loc_is_Some; eauto).
    pose proof (select_size df c row total (lower d) rng Hc Htot) as Hsize.
    pose proof (select_inv df c row total (lower d) rng Hc Htot) as (Hin & _ & _).
    split; [done|]. split; [done|]. split; [lia|]. split; [|split].
    + rewrite <- (length_fmap row_idx), Hperm. exact Hsz.
    + rewrite Hperm. apply NoDup_elements.
    + rewrite Hperm. by apply elem_of_elements.
  - destruct Hcases as (Hne & row & Hloc & Hsz).
    assert (Hc : c ∈ index df) by (apply loc_is_Some; eauto).
    pose proof (select_size df c row total (lower d) rng Hc Htot) as Hsize.
    split; [done|]. split; [done|]. lia.
Qed.

End SelectorFacts.

(** ** Lists of options *)

Lemma filter_row_idx_nil (c : Z) (items : list OptionItem) :
  c ∉ row_idx <$> items → filter (λ it, row_idx it = c) items = [].
Proof.
  induction items as [|it items IH]; [done|].
  rewrite fmap_cons, not_elem_of_cons. intros [Hne Hnot].
  rewrite filter_cons_False by congruence. auto.
Qed.

Lemma filter_row_idx_once (c : Z) (items : list OptionItem) :
  NoDup (row_idx <$> items) → c ∈ row_idx <$> items →
  length (filter (λ it, row_idx it = c) items) = 1%nat.
Proof.
  induction items as [|it items IH]; simpl.
  - intros _ Hin. by apply elem_of_nil in Hin.
  - rewrite NoDup_cons. intros [Hnot Hnd] Hin.
    destruct (decide (row_idx it = c)) as [Heq|Hne].
    + rewrite filter_cons_True by done. rewrite filter_row_idx_nil; [done|].
      by rewrite <- Heq.
    + rewrite filter_cons_False by done. apply IH; [done|].
      apply elem_of_cons in Hin as [?|?]; [congruence | done].
Qed.

(** ** Properties of [generate_options] *)

Section SelectorProperties.
Context {G : Type} `{RandomSource G}.

(** C1. Whenever [generate_options] returns, the list it returns has
    exactly [max(2, min(total_options, len(df)))] entries, for every
    difficulty and every generator state. *)
Theorem generate_options_length df correct_idx total_options difficulty
    (rng rng' : G) items :
  generate_options df correct_idx total_options difficulty rng
    = (Ok items, rng') →
  Z.of_nat (length items)
  = Z.max 2 (Z.min total_options (Z.of_nat (length df))).
Proof.
  intros Hrun.
  pose proof (generate_options_outcome df correct_idx total_options
                difficulty rng) as Hout.
  rewrite Hrun in Hout. cbn [fst] in Hout. tauto.
Qed.

(** C2. Whenever [generate_options] returns, exactly one returned item
    carries [correct_idx], and the [row_idx] of the returned items are
    pairwise distinct. *)
Theorem generate_options_correct_once df correct_idx total_options difficulty
    (rng rng' : G) items :
  generate_options df correct_idx total_options difficulty rng
    = (Ok items, rng') →
  length (filter (λ it, row_idx it = correct_idx) items) = 1%nat
  ∧ NoDup (row_idx <$> items).
Proof.
  intros Hrun.
  pose proof (generate_options_outcome df correct_idx total_options
                difficulty rng) as Hout.
  rewrite Hrun in Hout. cbn [fst] in Hout.
  destruct Hout as (_ & _ & _ & _ & Hnd & Hin).
  split; [by apply filter_row_idx_once | done].
Qed.

(** C3. For a frame whose labels are pairwise distinct, a call ends in
    one of four ways, each under its own condition.  It raises [ValueError]
    (EmptyDatasetError) exactly when the frame has no rows, [KeyError]
    (UnknownRecordError) exactly when the frame has rows and none is
    labelled [correct_idx], [RuntimeError] (InsufficientCandidatesError)
    exactly when, otherwise, the quota and fill phases leave fewer than
    the clamped count of labels selected, and it returns exactly when they
    reach the clamped count; a returned list has exactly the clamped count
    of items with pairwise distinct labels, never fewer. *)
Theorem generate_options_returns_or_raises df correct_idx total_options
    difficulty (rng : G) :
  NoDup (index df) →
  let total := Z.max 2 (Z.min total_options (Z.of_nat (length df))) in
  let out := (generate_options df correct_idx total_options difficulty rng).1 in
  (out = Raise ValueError ↔ df = [])
  ∧ (out = Raise KeyError ↔ df ≠ [] ∧ correct_idx ∉ index df)
  ∧ (out = Raise RuntimeError ↔
       df ≠ [] ∧ ∃ correct_row, loc df correct_idx = Some correct_row
         ∧ Z.of_nat (size (select df correct_idx correct_row total
                             (lower difficulty) rng).1) < total)
  ∧ ((∃ items, out = Ok items) ↔
       df ≠ [] ∧ ∃ correct_row, loc df correct_idx = Some correct_row
         ∧ total ≤ Z.of_nat (size (select df correct_idx correct_row total
                                     (lower difficulty) rng).1))
  ∧ (∀ items, out = Ok items →
       Z.of_nat (length items) = total ∧ NoDup (row_idx <$> items)).
Proof.
  intros _ total out.
  pose proof (generate_options_cases df correct_idx total_options
                difficulty rng) as Hcases.
  pose proof (generate_options_outcome df correct_idx total_options
                difficulty rng) as Hout.
  fold total in Hcases, Hout. fold out in Hcases, Hout.
  destruct out as [items|[| |]].
  - destruct Hcases as (Hne & row & Hloc & Hsz & _).
    destruct Hout as (_ & Hc & _ & Hlen & Hnd & _).
    split; [split; [done | intros ->; done]|].
    split; [split; [done | intros [_ ?]; done]|].
    split; [|split].
    + split; [done|]. intros (_ & row' & Hloc' & Hlt).
      rewrite Hloc in Hloc'. injection Hloc' as <-. lia.
    + split; [|by exists items]. intros _. split; [done|].
      exists row. split; [done | lia].
    + intros items' [= <-]. done.
  - split; [done|].
    split; [split; [done | intros [? _]; done]|].
    split; [split; [done | intros [? _]; done]|].
    split; [|done].
    split; [by intros [? ?] | intros [? _]; done].
  - destruct Hcases as [Hne Hnot].
    split; [split; [done | intros ->; done]|].
    split; [done|].
    assert (Hno : ¬ ∃ row, loc df correct_idx = Some row).
    { intros Hrow. apply Hnot. by apply loc_is_Some. }
    split; [|split; [|done]].
    + split; [done|]. intros (_ & row & Hloc & _). exfalso. apply Hno. eauto.
    + split; [by intros [? ?]|]. intros (_ & row & Hloc & _).
      exfalso. apply Hno. eauto.
  - destruct Hcases as (Hne & row & Hloc & Hlt).
    split; [split; [done | intros ->; done]|].
    split.
    { split; [done|]. intros [_ Hnot]. exfalso. apply Hnot.
      apply loc_is_Some. eauto. }
    split; [split; [intros _; split; [done | by exists row] | done]|].
    split; [|done].
    split; [by intros [? ?]|]. intros (_ & row' & Hloc' & Hge).
    rewrite Hloc in Hloc'. injection Hloc' as <-. lia.
Qed.

Lemma distinct_labels_NoDup df :
  NoDup (index df) → distinct_labels df = length df.
Proof.
  intros Hnd. unfold distinct_labels.
  rewrite size_list_to_set by done. apply length_index.
Qed.

(** C5, amended. For a frame of at least two rows with pairwise distinct
    labels, one of them [correct_idx], a request for more options than the
    frame has rows is clamped to the number of rows: the call returns, with
    exactly [len(df)] items. *)
Theorem generate_options_clamps_to_frame df correct_idx total_options
    difficulty (rng : G) :
  NoDup (index df) → (2 ≤ length df)%nat → correct_idx ∈ index df →
  Z.of_nat (length df) < total_options →
  Z.max 2 (Z.min total_options (Z.of_nat (length df))) = Z.of_nat (length df)
  ∧ ∃ items rng',
      generate_options df correct_idx total_options difficulty rng
        = (Ok items, rng')
      ∧ length items = length df.
Proof.
  intros Hnd Hlen Hc Hbig. split; [lia|].
  pose proof (generate_options_outcome df correct_idx total_options
                difficulty rng) as Hout.
  rewrite (distinct_labels_NoDup df Hnd) in Hout.
  destruct (generate_options df correct_idx total_options difficulty rng)
    as [[items|[| |]] rng']; cbn [fst] in Hout.
  - exists items, rng'. split; [done|]. lia.
  - subst df. simpl in Hlen. lia.
  - tauto.
  - lia.
Qed.

(** Only the plan and the two comparisons with "easy" and "hard" depend on
    the difficulty, so every name other than the three is treated as
    "medium". *)
Lemma plan_for_unrecognized d :
  d ≠ "easy" → d ≠ "medium" → d ≠ "hard" → plan_for d = plan_for "medium".
Proof.
  intros He Hm Hh. unfold plan_for, difficulty_plan.
  by rewrite !lookup_insert_ne, lookup_empty by done.
Qed.

Lemma select_unrecognized df c row total d (rng : G) :
  d ≠ "easy" → d ≠ "medium" → d ≠ "hard" →
  select df c row total d rng = select df c row total "medium" rng.
Proof.
  intros He Hm Hh.
  unfold select, fill, after_same_year, after_same_model, after_same_make.
  rewrite (plan_for_unrecognized d) by done.
  rewrite (bool_decide_eq_false_2 (d = "easy")) by done.
  rewrite (bool_decide_eq_false_2 (d = "hard")) by done.
  rewrite (bool_decide_eq_false_2 ("medium" = "easy")) by done.
  rewrite (bool_decide_eq_false_2 ("medium" = "hard")) by done.
  reflexivity.
Qed.

(** C6. On "easy" the same_year sub-phase only adds labels of records that
    share the correct record's year and have another make. *)
Theorem easy_same_year_adds_other_makes df correct_idx correct_row
    total_options difficulty (rng : G) idx :
  NoDup (index df) → lower difficulty = "easy" →
  idx ∈ (after_same_year df correct_idx correct_row total_options
           (lower difficulty) rng).1 →
  idx ∉ (after_same_model df correct_idx correct_row total_options
           (lower difficulty) rng).1 →
  ∃ row, loc df idx = Some row
    ∧ year row = year correct_row
    ∧ make_en row ≠ make_en correct_row.
Proof.
  intros Hnd -> Hin Hnot. unfold after_same_year in Hin.
  destruct (try_add_added _ _ _ _ _ _ _ _ Hin Hnot)
    as [(row & Hrow & Hmask) Hmake].
  exists row. pose proof (loc_unique df idx row Hnd Hrow) as Hloc.
  split; [done|]. split.
  - simpl in Hmask. apply andb_prop in Hmask as [Hy _].
    by apply String.eqb_eq in Hy.
  - specialize (Hmake eq_refl). unfold loc_make_en in Hmake.
    rewrite Hloc in Hmake. simpl in Hmake. congruence.
Qed.

(** C7. Whatever the difficulty, the same_model sub-phase only adds labels
    of records that share the correct record's model, have another year,
    and are not the correct record. *)
Theorem same_model_adds_other_years df correct_idx correct_row
    total_options difficulty (rng : G) idx :
  NoDup (index df) →
  idx ∈ (after_same_model df correct_idx correct_row total_options
           (lower difficulty) rng).1 →
  idx ∉ (after_same_make df correct_idx correct_row total_options
           (lower difficulty) rng).1 →
  ∃ row, loc df idx = Some row
    ∧ model_en row = model_en correct_row
    ∧ year row ≠ year correct_row
    ∧ idx ≠ correct_idx.
Proof.
  intros Hnd Hin Hnot. unfold after_same_model in Hin.
  destruct (try_add_added _ _ _ _ _ _ _ _ Hin Hnot)
    as [(row & Hrow & Hmask) _].
  exists row. split; [by apply loc_unique|].
  simpl in Hmask. apply andb_prop in Hmask as [Hmask Hidx].
  apply andb_prop in Hmask as [Hmodel Hyear].
  split; [by apply String.eqb_eq in Hmodel|]. split.
  - apply negb_true_iff, String.eqb_neq in Hyear. done.
  - apply negb_true_iff, Z.eqb_neq in Hidx. done.
Qed.

(** The two cases of a letter lower-case to the same character, and a
    character and its lower-case form are two cases of one letter. *)
Lemma same_letter_lower_char c1 c2 :
  same_letter c1 c2 = true → lower_char c1 = lower_char c2.
Proof.
  unfold same_letter. intros [Heq|Hex]%orb_prop.
  - apply Ascii.eqb_eq in Heq. by subst.
  - apply existsb_exists in Hex as ([u l] & Hin & Hcase). cbn [fst snd] in Hcase.
    assert (Hc : (c1 = u ∧ c2 = l) ∨ (c1 = l ∧ c2 = u)).
    { apply orb_prop in Hcase as [[H1 H2]%andb_prop|[H1 H2]%andb_prop];
        apply Ascii.eqb_eq in H1, H2; tauto. }
    clear Hcase. unfold letter_cases in Hin. cbn in Hin.
    repeat (destruct Hin as [[= <- <-]|Hin];
            [by destruct Hc as [[-> ->]|[-> ->]]|]).
    destruct Hin.
Qed.

Lemma same_letter_lower_char_self c : same_letter c (lower_char c) = true.
Proof. by destruct c as [[] [] [] [] [] [] [] []]. Qed.

Lemma same_up_to_case_lower d1 d2 :
  same_up_to_case d1 d2 = true → lower d1 = lower d2.
Proof.
  revert d2. induction d1 as [|c1 d1 IH]; intros [|c2 d2]; simpl; try done.
  intros [Hc Hrest]%andb_prop.
  by rewrite (same_letter_lower_char c1 c2 Hc), (IH d2 Hrest).
Qed.

Lemma same_up_to_case_lower_self d : same_up_to_case d (lower d) = true.
Proof.
  induction d as [|c d IH]; simpl; [done|].
  by rewrite same_letter_lower_char_self, IH.
Qed.

Lemma lower_not_name d name :
  same_up_to_case d name = false → lower d ≠ name.
Proof.
  intros Hdiff <-. by rewrite same_up_to_case_lower_self in Hdiff.
Qed.

(** C8. The difficulty is read without regard to letter case: two
    spellings that differ only in the case of their letters give the same
    call.  A difficulty that is no spelling of "easy", "medium" or "hard",
    or, in the words of the source, whose lower-cased form is none of the
    three, gives exactly the call made with "medium": same result (so no
    error of its own) and same generator state. *)
Theorem difficulty_case_insensitive_medium_fallback df correct_idx
    total_options (rng : G) :
  (∀ d1 d2, same_up_to_case d1 d2 = true →
     generate_options df correct_idx total_options d1 rng
     = generate_options df correct_idx total_options d2 rng)
  ∧ (∀ d, same_up_to_case d "easy" = false →
       same_up_to_case d "medium" = false →
       same_up_to_case d "hard" = false →
       generate_options df correct_idx total_options d rng
       = generate_options df correct_idx total_options "medium" rng)
  ∧ (∀ d, lower d ≠ "easy" → lower d ≠ "medium" → lower d ≠ "hard" →
       generate_options df correct_idx total_options d rng
       = generate_options df correct_idx total_options "medium" rng).
Proof.
  assert (Hfall : ∀ d,
    lower d ≠ "easy" → lower d ≠ "medium" → lower d ≠ "hard" →
    generate_options df correct_idx total_options d rng
    = generate_options df correct_idx total_options "medium" rng).
  { intros d He Hm Hh. unfold generate_options.
    change (lower "medium") with "medium".
    destruct (_ =? 0); [done|].
    destruct (loc df correct_idx) as [row|]; [|done].
    by rewrite (select_unrecognized df correct_idx row _ (lower d)). }
  split; [|split; [|done]].
  - intros d1 d2 Heq%same_up_to_case_lower.
    unfold generate_options. by rewrite Heq.
  - intros d He Hm Hh. apply Hfall; by apply lower_not_name.
Qed.

(** C10. For a frame whose labels are pairwise distinct: with at least two
    rows, one of them labelled [correct_idx], the call returns, so it never
    raises [RuntimeError] (InsufficientCandidatesError), whatever the
    count asked for, the difficulty and the generator; [RuntimeError] is
    raised only for a frame with fewer than two distinct labels, namely
    exactly for a frame of a single row, labelled [correct_idx]. *)
Theorem runtime_error_needs_single_row df correct_idx total_options
    difficulty (rng : G) :
  NoDup (index df) →
  let out := (generate_options df correct_idx total_options difficulty rng).1 in
  ((2 ≤ length df)%nat → correct_idx ∈ index df →
     out ≠ Raise RuntimeError ∧ ∃ items, out = Ok items)
  ∧ (out = Raise RuntimeError → (distinct_labels df < 2)%nat)
  ∧ (out = Raise RuntimeError ↔ correct_idx ∈ index df ∧ length df = 1%nat).
Proof.
  intros Hnd out.
  pose proof (generate_options_outcome df correct_idx total_options
                difficulty rng) as Hout.
  cbv zeta in Hout. fold out in Hout.
  rewrite (distinct_labels_NoDup df Hnd) in Hout |- *.
  destruct out as [items|[| |]].
  - destruct Hout as (_ & Hc & Hge & _).
    split; [intros _ _; split; [done | by exists items]|].
    split; [done|]. split; [done|]. intros [_ Hone]. lia.
  - subst df. split; [simpl; lia|]. split; [done|].
    split; [done|]. by intros [_ ?].
  - destruct Hout as [_ Hnot]. split; [tauto|]. split; [done|].
    split; [done|]. tauto.
  - destruct Hout as (Hne & Hc & Hlt).
    assert (Hone : length df = 1%nat).
    { destruct df as [|r0 [|r1 df]]; [done | done |].
      simpl length in Hlt. lia. }
    split; [lia|]. split; [lia|]. done.
Qed.

End SelectorProperties.

(** ** The label formatter *)

(** C9. [build_option_label] is the join, by single spaces and skipping
    empty segments, of the make segment, the model segment, the year and
    the variant; a make or model segment is "localized(english)" when the
    localized name is not empty and the English name alone otherwise; an
    empty or missing variant adds nothing.  The label is a function of the
    row alone. *)
Theorem build_option_label_segments row :
  build_option_label row = label_of_segments row
  ∧ (∀ english, segment "" english = english)
  ∧ (∀ c localized english,
       segment (String c localized) english
       = String c localized +:+ "(" +:+ english +:+ ")")
  ∧ join_segments
      [segment (make_ko row) (make_en row);
       segment (model_ko row) (model_en row); year row; ""]
    = join_segments
        [segment (make_ko row) (make_en row);
         segment (model_ko row) (model_en row); year row].
Proof.
  split; [|split; [done|split; [done|]]].
  - unfold build_option_label, label_of_segments.
    destruct row as [mk me dk de y v]. simpl.
    destruct v as [[|cv v]|], mk as [|cmk mk], me as [|cme me],
      dk as [|cdk dk], de as [|cde de], y as [|cy y]; reflexivity.
  - simpl. by destruct (segment (make_ko row) (make_en row)),
      (segment (model_ko row) (model_en row)), (year row).
Qed.

(** ** An input on which a claim fails as first stated *)

(** C5, as stated, fails: a frame of one row holds [correct_idx] and is
    smaller than the request, yet the clamp asks for 2 options, more than
    the frame has rows, and the call raises [RuntimeError]. *)
Lemma single_row_frame_over_request_raises :
  single_row_frame ≠ []
  ∧ 7 ∈ index single_row_frame
  ∧ Z.of_nat (length single_row_frame) < 5
  ∧ Z.of_nat (length single_row_frame)
    < Z.max 2 (Z.min 5 (Z.of_nat (length single_row_frame)))
  ∧ generate_options single_row_frame 7 5 "medium" (1 : Z)
    = (Raise RuntimeError, 1).
Proof.
  split; [done|]. split; [apply list_elem_of_here|].
  split; [done|]. split; [done|]. vm_compute. reflexivity.
Qed.

(** ** The properties at sample inputs *)

(** Settle a decidable closed proposition by evaluating its decision. *)
Ltac by_evaluation := refine (bool_decide_unpack _ _); vm_compute; exact I.

Lemma generate_options_length_witness :
  ∃ items rng',
    generate_options sample_frame 0 4 "medium" (42 : Z) = (Ok items, rng')
    ∧ Z.of_nat (length items)
      = Z.max 2 (Z.min 4 (Z.of_nat (length sample_frame))).
Proof.
  eexists _, _. split; [vm_compute; reflexivity|].
  eapply (generate_options_length sample_frame 0 4 "medium" (42 : Z)).
  vm_compute. reflexivity.
Defined.

Lemma generate_options_correct_once_witness :
  ∃ items rng',
    generate_options sample_frame 0 10 "hard" (42 : Z) = (Ok items, rng')
    ∧ length (filter (λ it, row_idx it = 0) items) = 1%nat
    ∧ NoDup (row_idx <$> items).
Proof.
  eexists _, _. split; [vm_compute; reflexivity|].
  eapply (generate_options_correct_once sample_frame 0 10 "hard" (42 : Z)).
  vm_compute. reflexivity.
Defined.

Lemma generate_options_clamps_to_frame_witness :
  Z.max 2 (Z.min 10 (Z.of_nat (length sample_frame)))
  = Z.of_nat (length sample_frame)
  ∧ ∃ items rng',
      generate_options sample_frame 0 10 "easy" (42 : Z) = (Ok items, rng')
      ∧ length items = length sample_frame.
Proof.
  apply (generate_options_clamps_to_frame sample_frame 0 10 "easy" (42 : Z)).
  - by_evaluation.
  - simpl. lia.
  - apply list_elem_of_here.
  - simpl. lia.
Defined.

Lemma easy_same_year_adds_other_makes_witness :
  ∃ row, loc mixed_frame 12 = Some row
    ∧ year row = "2011"
    ∧ make_en row ≠ "Kia".
Proof.
  apply (easy_same_year_adds_other_makes mixed_frame 10
           (sample_row "Kia" "Rio" "2011") 5 "EASY" (3 : Z) 12).
  - by_evaluation.
  - reflexivity.
  - by_evaluation.
  - by_evaluation.
Defined.

Lemma same_model_adds_other_years_witness :
  ∃ row, loc mixed_frame 11 = Some row
    ∧ model_en row = "Rio"
    ∧ year row ≠ "2011"
    ∧ 11 ≠ 10.
Proof.
  apply (same_model_adds_other_years mixed_frame 10
           (sample_row "Kia" "Rio" "2011") 5 "EASY" (3 : Z) 11).
  - by_evaluation.
  - by_evaluation.
  - by_evaluation.
Defined.

Lemma generate_options_returns_or_raises_witness :
  ((generate_options sample_frame 0 4 "medium" (42 : Z)).1 = Raise ValueError
     ↔ sample_frame = [])
  ∧ ((generate_options single_row_frame 7 5 "medium" (1 : Z)).1
       = Raise RuntimeError
     ↔ single_row_frame ≠ []
       ∧ ∃ correct_row, loc single_row_frame 7 = Some correct_row
           ∧ Z.of_nat (size (select single_row_frame 7 correct_row
                               (Z.max 2 (Z.min 5 (Z.of_nat
                                  (length single_row_frame))))
                               (lower "medium") (1 : Z)).1)
             < Z.max 2 (Z.min 5 (Z.of_nat (length single_row_frame)))).
Proof.
  split.
  - apply (generate_options_returns_or_raises sample_frame 0 4 "medium"
             (42 : Z)).
    by_evaluation.
  - apply (generate_options_returns_or_raises single_row_frame 7 5 "medium"
             (1 : Z)).
    by_evaluation.
Defined.

(** On [sample_frame] the call for "easy" and the call for "medium" differ,
    and "EaSy" gives the former. *)
Lemma difficulty_case_insensitive_medium_fallback_witness :
  generate_options sample_frame 0 4 "EaSy" (42 : Z)
  = generate_options sample_frame 0 4 "easy" (42 : Z)
  ∧ generate_options sample_frame 0 4 "EaSy" (42 : Z)
    ≠ generate_options sample_frame 0 4 "medium" (42 : Z)
  ∧ generate_options sample_frame 0 4 "Extreme" (42 : Z)
    = generate_options sample_frame 0 4 "medium" (42 : Z)
  ∧ generate_options sample_frame 0 4 "Extreme" (42 : Z)
    = generate_options sample_frame 0 4 "MEDIUM" (42 : Z).
Proof.
  destruct (difficulty_case_insensitive_medium_fallback sample_frame 0 4
              (42 : Z)) as (Hcase & Hother & Hlower).
  split; [apply Hcase; reflexivity|].
  split; [intros Heq; vm_compute in Heq; discriminate Heq|].
  split; [apply Hother; reflexivity|].
  rewrite (Hcase "MEDIUM" "medium") by reflexivity.
  apply Hlower; discriminate.
Defined.

Lemma runtime_error_needs_single_row_witness :
  ((generate_options sample_frame 0 10 "medium" (42 : Z)).1 ≠ Raise RuntimeError
   ∧ ∃ items, (generate_options sample_frame 0 10 "medium" (42 : Z)).1
              = Ok items)
  ∧ ((generate_options single_row_frame 7 5 "medium" (1 : Z)).1
       = Raise RuntimeError
     ↔ 7 ∈ index single_row_frame ∧ length single_row_frame = 1%nat).
Proof.
  split.
  - apply (runtime_error_needs_single_row sample_frame 0 10 "medium" (42 : Z)).
    + by_evaluation.
    + simpl. lia.
    + apply list_elem_of_here.
  - apply (runtime_error_needs_single_row single_row_frame 7 5 "medium"
             (1 : Z)).
    by_evaluation.
Defined.

(** * Further properties of the selector

    The rest of this file covers [_candidate_indices], the closure
    [try_add], the quota and fill phases and the labels of the returned
    options beyond the statements above. *)

(** ** More on the insertion loop *)

(** The loop adds a prefix of its list. *)
Lemma add_until_prefix total ids (sel : gset Z) :
  ∃ k, add_until total ids sel = sel ∪ list_to_set (take k ids).
Proof.
  revert sel. induction ids as [|idx ids IH]; intros sel; simpl.
  - exists 0%nat. set_solver.
  - destruct (total <=? _).
    + exists 1%nat. simpl. set_solver.
    + destruct (IH ({[idx]} ∪ sel)) as [k ->]. exists (S k). simpl. set_solver.
Qed.

Lemma add_until_size_le total ids (sel : gset Z) :
  (size (add_until total ids sel) ≤ size sel + length ids)%nat.
Proof.
  revert sel. induction ids as [|idx ids IH]; intros sel; simpl; [lia|].
  pose proof (size_add_one sel idx).
  destruct (total <=? _); [lia|].
  specialize (IH ({[idx]} ∪ sel)). lia.
Qed.

(** Enough fresh, pairwise distinct identifiers fill the set. *)
Lemma add_until_fresh_fills total ids (sel : gset Z) :
  NoDup ids → (∀ idx, idx ∈ ids → idx ∉ sel) →
  Z.of_nat (size sel) < total →
  total ≤ Z.of_nat (size sel + length ids) →
  Z.of_nat (size (add_until total ids sel)) = total.
Proof.
  intros Hnd Hfresh Hlt Hle.
  destruct (add_until_full total ids sel Hlt) as [?|[Hshort Heq]]; [done|].
  exfalso. rewrite Heq in Hshort.
  rewrite size_union in Hshort.
  - rewrite size_list_to_set in Hshort by done. lia.
  - intros idx Hin1 Hin2. apply elem_of_list_to_set in Hin2.
    by apply (Hfresh idx).
Qed.

Lemma List_filter_sublist {A} (f : A → bool) (l : list A) :
  List.filter f l `sublist_of` l.
Proof.
  induction l as [|x l IH]; simpl; [constructor|].
  destruct (f x); by constructor.
Qed.

(** ** Candidates, quotas and the order of the fill *)

(** X1. [_candidate_indices] returns exactly the labels of the rows the
    mask holds for that are not excluded, in the order of the frame; with
    pairwise distinct labels in the frame it returns no label twice. *)
Theorem candidate_indices_exact df mask (exclude : gset Z) :
  (∀ idx, idx ∈ _candidate_indices df mask exclude ↔
     (idx ∉ exclude) ∧ (∃ row, (idx, row) ∈ df ∧ mask (idx, row) = true))
  ∧ _candidate_indices df mask exclude `sublist_of` index df
  ∧ (NoDup (index df) → NoDup (_candidate_indices df mask exclude)).
Proof.
  assert (Hsub : _candidate_indices df mask exclude `sublist_of` index df).
  { unfold _candidate_indices, index. etrans; [apply sublist_filter|].
    apply fmap_sublist, List_filter_sublist. }
  split; [|split; [done|]].
  - intros idx. unfold _candidate_indices, index.
    rewrite list_elem_of_filter, list_elem_of_fmap.
    split; intros [Hex Hrow]; (split; [done|]).
    + destruct Hrow as ([i row] & -> & Hin). simpl.
      apply list_elem_of_In, filter_In in Hin as [Hin Hm].
      exists row. by rewrite list_elem_of_In.
    + destruct Hrow as (row & Hin & Hm). exists (idx, row). split; [done|].
      apply list_elem_of_In, filter_In. by rewrite <- list_elem_of_In.
  - intros Hnd. by eapply sublist_NoDup.
Qed.

Section SelectorPhases.
Context {G : Type} `{RandomSource G}.

(** X2. [try_add] never removes a label, adds at most [target] labels,
    keeps the set within [total_options] when it was, and changes nothing,
    the generator included, when the set is already full or the quota is
    not positive. *)
Theorem try_add_quota df correct_row total_options mask target different_make
    (st : gset Z * G) :
  let st' := try_add df correct_row total_options mask target different_make
               st in
  st.1 ⊆ st'.1
  ∧ (size st'.1 ≤ size st.1 + Z.to_nat target)%nat
  ∧ (Z.of_nat (size st.1) ≤ total_options →
     Z.of_nat (size st'.1) ≤ total_options)
  ∧ (total_options ≤ Z.of_nat (size st.1) ∨ target ≤ 0 → st' = st).
Proof.
  intros st'. subst st'. split; [apply try_add_mono|].
  unfold try_add. destruct st as [sel rng]. cbn [fst].
  destruct (total_options <=? Z.of_nat (size sel)) eqn:Hfull;
    [|destruct (target <=? 0) eqn:Htarget]; cbn [orb].
  - cbn [fst]. split; [lia|]. done.
  - cbn [fst]. split; [lia|]. done.
  - apply Z.leb_gt in Hfull, Htarget.
    destruct (shuffle rng _) as [cands rng']. cbn [fst].
    split; [|split].
    + etrans; [apply add_until_size_le|].
      rewrite length_take. lia.
    + intros _. by apply add_until_size.
    + intros [?|?]; lia.
Qed.

(** X3. The same_make sub-phase only adds labels of records that share the
    correct record's make and are not the correct record: every label
    selected after it other than [correct_idx] is one. *)
Theorem same_make_adds_same_make df correct_idx correct_row total_options
    difficulty (rng : G) idx :
  NoDup (index df) →
  idx ∈ (after_same_make df correct_idx correct_row total_options
           (lower difficulty) rng).1 →
  idx ≠ correct_idx →
  ∃ row, loc df idx = Some row ∧ make_en row = make_en correct_row.
Proof.
  intros Hnd Hin Hne. unfold after_same_make in Hin.
  destruct (try_add_added _ _ _ _ _ _ _ _ Hin) as [(row & Hrow & Hmask) _].
  { cbn [fst]. by intros ->%elem_of_singleton. }
  exists row. split; [by apply loc_unique|].
  simpl in Hmask. apply andb_prop in Hmask as [Hmake _].
  by apply String.eqb_eq in Hmake.
Qed.

(** The fill phase on "easy" and "hard" walks two blocks one after the
    other; a label of the second block is only added once the whole first
    block is in. *)
Lemma add_until_two_blocks total (first second : list Z) (sel : gset Z) idx :
  idx ∈ add_until total (first ++ second) sel →
  idx ∉ sel → idx ∉ first →
  ∀ j, j ∈ first → j ∈ add_until total (first ++ second) sel.
Proof.
  intros Hin Hsel Hfirst j Hj.
  destruct (add_until_prefix total (first ++ second) sel) as [k Hk].
  rewrite Hk in *. apply elem_of_union in Hin as [?|Hin]; [done|].
  apply elem_of_list_to_set in Hin.
  apply elem_of_union. right. apply elem_of_list_to_set.
  destruct (decide (k ≤ length first)%nat) as [Hle|Hgt].
  - rewrite take_app_le in Hin by done.
    by apply subseteq_take in Hin.
  - rewrite take_app_ge by lia. apply elem_of_app. by left.
Qed.

(** X4. On "easy" the fill phase prefers other makes: when it adds a label
    whose record has the correct record's make, every label of the frame
    whose record has another make is selected. *)
Theorem fill_easy_prefers_other_makes df correct_row total_options
    (st : gset Z * G) idx :
  idx ∈ (fill df correct_row total_options "easy" st).1 →
  idx ∉ st.1 →
  loc_make_en df idx = Some (make_en correct_row) →
  ∀ j, j ∈ index df →
       loc_make_en df j ≠ Some (make_en correct_row) →
       j ∈ (fill df correct_row total_options "easy" st).1.
Proof.
  destruct st as [sel rng]. unfold fill. cbn [fst].
  destruct (Z.of_nat (size sel) <? total_options); [|done].
  rewrite (bool_decide_eq_true_2 ("easy" = "easy")) by done.
  pose proof (shuffle_Permutation rng
                (filter (λ idx, idx ∉ sel) (index df))) as Hperm.
  destruct (shuffle rng _) as [l rng']. cbn [fst] in *.
  intros Hin Hsel Hmake j Hj Hother.
  destruct (decide (j ∈ sel)) as [|Hjsel]; [by apply add_until_subseteq|].
  eapply add_until_two_blocks; [exact Hin | done | |].
  - rewrite list_elem_of_filter. tauto.
  - rewrite list_elem_of_filter, Hperm, list_elem_of_filter. done.
Qed.

(** X5. On "hard" the fill phase prefers the correct make: when it adds a
    label whose record has another make, every label of the frame whose
    record has the correct record's make is selected. *)
Theorem fill_hard_prefers_same_make df correct_row total_options
    (st : gset Z * G) idx :
  idx ∈ (fill df correct_row total_options "hard" st).1 →
  idx ∉ st.1 →
  loc_make_en df idx ≠ Some (make_en correct_row) →
  ∀ j, j ∈ index df →
       loc_make_en df j = Some (make_en correct_row) →
       j ∈ (fill df correct_row total_options "hard" st).1.
Proof.
  destruct st as [sel rng]. unfold fill. cbn [fst].
  destruct (Z.of_nat (size sel) <? total_options); [|done].
  rewrite (bool_decide_eq_false_2 ("hard" = "easy")) by done.
  rewrite (bool_decide_eq_true_2 ("hard" = "hard")) by done.
  pose proof (shuffle_Permutation rng
                (filter (λ idx, idx ∉ sel) (index df))) as Hperm.
  destruct (shuffle rng _) as [l rng']. cbn [fst] in *.
  intros Hin Hsel Hmake j Hj Hsame.
  destruct (decide (j ∈ sel)) as [|Hjsel]; [by apply add_until_subseteq|].
  eapply add_until_two_blocks; [exact Hin | done | |].
  - rewrite list_elem_of_filter. tauto.
  - rewrite list_elem_of_filter, Hperm, list_elem_of_filter. done.
Qed.

Lemma try_add_noop df correct_row total_options mask target different_make
    (st : gset Z * G) :
  total_options ≤ Z.of_nat (size st.1) ∨ target ≤ 0 →
  try_add df correct_row total_options mask target different_make st = st.
Proof.
  destruct st as [sel rng]. cbn [fst]. intros Hnoop. unfold try_add.
  destruct (total_options <=? Z.of_nat (size sel)) eqn:Hfull; [done|].
  destruct (target <=? 0) eqn:Htarget; [done|].
  apply Z.leb_gt in Hfull, Htarget. lia.
Qed.

Lemma fill_noop df correct_row total_options difficulty (st : gset Z * G) :
  total_options ≤ Z.of_nat (size st.1) →
  fill df correct_row total_options difficulty st = st.
Proof.
  destruct st as [sel rng]. cbn [fst]. intros Hfull. unfold fill.
  apply Z.ltb_ge in Hfull. by rewrite Hfull.
Qed.

(** A successful call returns what [build_items] makes of some labels. *)
Lemma generate_options_built df c t d (rng rng' : G) items :
  generate_options df c t d rng = (Ok items, rng') →
  ∃ ids, build_items df ids = Ok items.
Proof.
  unfold generate_options.
  destruct (_ =? 0); [done|].
  destruct (loc df c) as [row|]; [|done].
  destruct (select df c row _ (lower d) rng) as [sel rng1].
  destruct (_ <? _); [done|].
  destruct (shuffle rng1 (elements sel)) as [l rng2].
  intros [= Hitems _]. eauto.
Qed.

(** X6. Every returned option carries the label of its own record: its
    [row_idx] is a label of the frame and its [label] is
    [build_option_label] of the row [df.loc] reads there. *)
Theorem generate_options_labels df correct_idx total_options difficulty
    (rng rng' : G) items :
  generate_options df correct_idx total_options difficulty rng
    = (Ok items, rng') →
  Forall (λ it, ∃ row, loc df (row_idx it) = Some row
                       ∧ label it = build_option_label row) items.
Proof.
  intros [ids Hids]%generate_options_built.
  pose proof (build_items_spec df ids) as Hspec.
  rewrite Hids in Hspec. tauto.
Qed.

(** X7. Asked for at least as many options as a frame of two or more
    pairwise distinct labels has rows, the call returns every record of the
    frame exactly once: the returned [row_idx] are a rearrangement of the
    index. *)
Theorem generate_options_whole_frame df correct_idx total_options difficulty
    (rng : G) :
  NoDup (index df) → (2 ≤ length df)%nat → correct_idx ∈ index df →
  Z.of_nat (length df) ≤ total_options →
  ∃ items rng',
    generate_options df correct_idx total_options difficulty rng
      = (Ok items, rng')
    ∧ row_idx <$> items ≡ₚ index df.
Proof.
  intros Hnd Hlen Hc Hbig.
  pose proof (generate_options_cases df correct_idx total_options
                difficulty rng) as Hcases.
  pose proof (generate_options_outcome df correct_idx total_options
                difficulty rng) as Hout.
  cbv zeta in Hcases, Hout.
  rewrite (distinct_labels_NoDup df Hnd) in Hout.
  replace (Z.max 2 (Z.min total_options (Z.of_nat (length df))))
    with (Z.of_nat (length df)) in * by lia.
  destruct (generate_options df correct_idx total_options difficulty rng)
    as [[items|[| |]] rng']; cbn [fst] in *.
  - exists items, rng'. split; [done|].
    destruct Hcases as (_ & row & Hloc & Hsz & Hperm). rewrite Hperm.
    pose proof (select_inv df correct_idx row (Z.of_nat (length df))
                  (lower difficulty) rng Hc ltac:(lia)) as (_ & Hsub & _).
    assert (Heq : (select df correct_idx row (Z.of_nat (length df))
                     (lower difficulty) rng).1 = list_to_set (index df)).
    { apply set_subseteq_size_eq.
      - intros idx Hin. apply elem_of_list_to_set. by apply Hsub.
      - rewrite size_list_to_set, length_index by done. lia. }
    rewrite Heq. by apply elements_list_to_set.
  - subst df. simpl in Hlen. lia.
  - tauto.
  - lia.
Qed.

Lemma filter_all {A} (P : A → Prop) `{∀ x, Decision (P x)} (l : list A) :
  (∀ x, x ∈ l → P x) → filter P l = l.
Proof.
  induction l as [|x l IH]; intros Hall; [done|].
  rewrite filter_cons_True by (apply Hall, list_elem_of_here).
  f_equal. apply IH. intros y Hy. by apply Hall, list_elem_of_further.
Qed.

(** When the frame has enough other rows of the correct make and the
    same_make quota allows as many, the first sub-phase fills the set. *)
Lemma after_same_make_fills df c row total d (rng : G) :
  NoDup (index df) → 2 ≤ total →
  total - 1 ≤ same_make (plan_for d) →
  total - 1 ≤ Z.of_nat (length (List.filter (same_make_mask c row) df)) →
  Z.of_nat (size (after_same_make df c row total d rng).1) = total.
Proof.
  intros Hnd Htot Hquota Hrows. unfold after_same_make, try_add.
  rewrite size_singleton.
  destruct (total <=? Z.of_nat 1) eqn:Hfull; [apply Z.leb_le in Hfull; lia|].
  destruct (same_make (plan_for d) <=? 0) eqn:Htarget;
    [apply Z.leb_le in Htarget; lia|]. cbn [orb].
  set (cands := _candidate_indices df (same_make_mask c row) {[c]}).
  assert (Hcands : cands = index (List.filter (same_make_mask c row) df)).
  { unfold cands, _candidate_indices. apply filter_all.
    intros idx Hin ->%elem_of_singleton. unfold index in Hin.
    apply list_elem_of_fmap in Hin as ([i r] & -> & Hin).
    apply list_elem_of_In, filter_In in Hin as [_ Hm]. simpl in Hm.
    apply andb_prop in Hm as [_ Hm]. apply negb_true_iff, Z.eqb_neq in Hm.
    done. }
  assert (Hnd' : NoDup cands).
  { rewrite Hcands. apply (sublist_NoDup _ (index df)); [exact Hnd|].
    apply fmap_sublist, List_filter_sublist. }
  pose proof (shuffle_Permutation rng cands) as Hperm.
  destruct (shuffle rng cands) as [l rng']. cbn [fst] in *.
  apply add_until_fresh_fills.
  - apply (sublist_NoDup _ l); [|apply sublist_take]. by rewrite Hperm.
  - intros idx Hin%subseteq_take. rewrite Hperm in Hin.
    unfold cands, _candidate_indices in Hin.
    by apply list_elem_of_filter in Hin as [? _].
  - rewrite size_singleton. lia.
  - rewrite size_singleton, length_take, Hperm, Hcands, length_index. lia.
Qed.

(** X8. When the frame (pairwise distinct labels) has at least
    [total - 1] other rows of the correct record's make and the same_make
    quota of the difficulty is at least [total - 1], where [total] is the
    clamped count, every returned option is a record of the correct
    record's make. *)
Theorem same_make_quota_decides df correct_idx correct_row total_options
    difficulty (rng rng' : G) items :
  let total := Z.max 2 (Z.min total_options (Z.of_nat (length df))) in
  NoDup (index df) →
  loc df correct_idx = Some correct_row →
  total - 1 ≤ same_make (plan_for (lower difficulty)) →
  total - 1 ≤ Z.of_nat (length (List.filter
                 (same_make_mask correct_idx correct_row) df)) →
  generate_options df correct_idx total_options difficulty rng
    = (Ok items, rng') →
  Forall (λ it, ∃ row, loc df (row_idx it) = Some row
                       ∧ make_en row = make_en correct_row) items.
Proof.
  intros total Hnd Hloc Hquota Hrows Hrun.
  pose proof (generate_options_cases df correct_idx total_options
                difficulty rng) as Hcases.
  cbv zeta in Hcases. fold total in Hcases.
  rewrite Hrun in Hcases. cbn [fst] in Hcases.
  destruct Hcases as (_ & row & Hloc' & _ & Hperm).
  rewrite Hloc in Hloc'. injection Hloc' as <-.
  pose proof (after_same_make_fills df correct_idx correct_row total
                (lower difficulty) rng Hnd ltac:(unfold total; lia)
                Hquota Hrows) as Hfull.
  assert (Hsel : (select df correct_idx correct_row total
                    (lower difficulty) rng).1
                 = (after_same_make df correct_idx correct_row total
                      (lower difficulty) rng).1).
  { unfold select, after_same_year, after_same_model.
    rewrite (try_add_noop _ _ _ (same_model_mask _ _)) by (left; lia).
    rewrite (try_add_noop _ _ _ (same_year_mask _ _)) by (left; lia).
    rewrite fill_noop by lia. done. }
  rewrite Hsel in Hperm.
  apply Forall_forall. intros it Hit.
  assert (Hin : row_idx it ∈ (after_same_make df correct_idx correct_row
                                total (lower difficulty) rng).1).
  { apply elem_of_elements. rewrite <- Hperm.
    apply list_elem_of_fmap. by exists it. }
  cbv beta.
  destruct (decide (row_idx it = correct_idx)) as [Heq|Hne];
    [exists correct_row; by rewrite Heq|].
  unfold after_same_make in Hin.
  destruct (try_add_added _ _ _ _ _ _ _ _ Hin) as [(r & Hr & Hmask) _].
  { cbn [fst]. by intros Heq%elem_of_singleton. }
  exists r. split; [by apply loc_unique|].
  simpl in Hmask. apply andb_prop in Hmask as [Hmake _].
  by apply String.eqb_eq in Hmake.
Qed.

End SelectorPhases.

(** * The quiz session: properties *)

Lemma size_list_to_set_le (l : list Z) :
  (size (list_to_set l : gset Z) ≤ length l)%nat.
Proof.
  induction l as [|x l IH].
  - change (size (∅ : gset Z) ≤ 0)%nat. by rewrite size_empty.
  - change (size ({[x]} ∪ list_to_set l : gset Z) ≤ S (length l))%nat.
    pose proof (size_add_one (list_to_set l) x). lia.
Qed.

Lemma distinct_labels_le df : (distinct_labels df ≤ length df)%nat.
Proof.
  unfold distinct_labels. rewrite <- (length_index df).
  apply size_list_to_set_le.
Qed.

Lemma list_getitem_lookup {A} (l : list A) (i : nat) :
  list_getitem l (Z.of_nat i) = l !! i.
Proof.
  unfold list_getitem.
  destruct (0 <=? Z.of_nat i) eqn:Hi; [by rewrite Nat2Z.id|].
  apply Z.leb_gt in Hi. lia.
Qed.

Lemma correct_answers_le s : (correct_answers s ≤ length (history s))%nat.
Proof.
  unfold correct_answers. apply sublist_length, List_filter_sublist.
Qed.

Section ApplicationFacts.
Context {G : Type} `{RandomSource G}.

(** What a fresh call of the selector from [ensure_current_options]
    returns has as many options as the caller goes on to check. *)
Lemma generate_options_wanted df c d (rng : G) options :
  (generate_options df c (Z.min 10 (Z.of_nat (length df))) d rng).1
    = Ok options →
  Z.of_nat (length options) = Z.min 10 (Z.of_nat (length df))
  ∧ (2 ≤ length df)%nat.
Proof.
  intros Hrun.
  pose proof (generate_options_outcome df c
                (Z.min 10 (Z.of_nat (length df))) d rng) as Hout.
  cbv zeta in Hout. rewrite Hrun in Hout.
  destruct Hout as (_ & _ & Hle & Hlen & _).
  pose proof (distinct_labels_le df). lia.
Qed.

(** X9. [ensure_current_options] never raises its own [RuntimeError]: the
    selector, when it returns, returns the [min(10, len(df))] options the
    caller checks for.  A call that raises leaves the session as it was;
    a call that returns leaves the options stored in the session, and
    options generated by the call number [min(10, len(df))], which takes a
    frame of at least two rows. *)
Theorem ensure_current_options_outcome df s (rng : G) :
  match ensure_current_options df s rng with
  | (AOk options, s') =>
      current_options s' = Some options
      ∧ (current_options s = None →
         Z.of_nat (length options) = Z.min 10 (Z.of_nat (length df))
         ∧ (2 ≤ length df)%nat)
  | (ARaise e, s') => s' = s ∧ e ≠ OptionCountError
  end.
Proof.
  unfold ensure_current_options.
  destruct (current_options s) as [cached|] eqn:Hcached; [done|].
  destruct (list_getitem _ _) as [c|]; [|done].
  destruct (generate_options df c _ (difficulty s) rng).1
    as [options|e] eqn:Hrun; [|done].
  apply generate_options_wanted in Hrun as [Hlen Hrows].
  apply Z.eqb_eq in Hlen as Hcheck. rewrite Hcheck. cbn [negb]. done.
Qed.

(** X10. Every option the selector returns can be submitted, whatever the
    session: [handle_submission] finds its row, adds
    [POINTS_PER_QUESTION] to the score when the option is the correct
    record and nothing otherwise, and moves to the next question.  Exactly
    one of the returned options is the one that scores. *)
Theorem exactly_one_option_scores df correct_idx correct_row total_options
    difficulty (rng rng' : G) options s :
  generate_options df correct_idx total_options difficulty rng
    = (Ok options, rng') →
  (∀ opt, opt ∈ options →
     ∃ s', handle_submission df correct_idx correct_row (Some opt) s = AOk s'
       ∧ score s' = score s
                    + (if decide (row_idx opt = correct_idx)
                       then POINTS_PER_QUESTION else 0)
       ∧ current_question_idx s' = current_question_idx s + 1
       ∧ current_options s' = None)
  ∧ length (filter (λ opt, row_idx opt = correct_idx) options) = 1%nat.
Proof.
  intros Hrun. split.
  - intros opt Hopt.
    destruct (generate_options_built _ _ _ _ _ _ _ Hrun) as [ids Hids].
    pose proof (build_items_spec df ids) as Hspec. rewrite Hids in Hspec.
    destruct Hspec as [_ Hall].
    rewrite Forall_forall in Hall.
    destruct (Hall opt Hopt) as (row & Hrow & _).
    unfold handle_submission. rewrite Hrow. eexists. split; [done|].
    cbn. unfold score_answer, bool_decide.
    by destruct (decide_rel _ _ _), (decide _).
  - pose proof (generate_options_outcome df correct_idx total_options
                  difficulty rng) as Hout.
    rewrite Hrun in Hout. cbn [fst] in Hout.
    destruct Hout as (_ & _ & _ & _ & Hnd & Hin).
    by apply filter_row_idx_once.
Qed.

Lemma ensure_current_options_session df s (rng : G) :
  let s' := (ensure_current_options df s rng).2 in
  question_order s' = question_order s
  ∧ current_question_idx s' = current_question_idx s
  ∧ total_questions s' = total_questions s
  ∧ score s' = score s
  ∧ history s' = history s
  ∧ ended_early s' = ended_early s
  ∧ difficulty s' = difficulty s.
Proof.
  unfold ensure_current_options.
  destruct (current_options s); [done|].
  destruct (list_getitem _ _); [|done].
  destruct (generate_options _ _ _ _ _).1; [|done].
  by destruct (negb _).
Qed.

(** What holds of every session of a quiz. *)
Lemma quiz_session_facts df s :
  quiz_session df s →
  score s = POINTS_PER_QUESTION * Z.of_nat (correct_answers s)
  ∧ current_question_idx s = Z.of_nat (length (history s))
  ∧ (∀ i entry, history s !! i = Some entry →
       question entry = Z.of_nat i + 1)
  ∧ current_question_idx s ≤ total_questions s
  ∧ total_questions s ≤ TOTAL_QUESTIONS
  ∧ total_questions s ≤ Z.of_nat (length df)
  ∧ 0 ≤ score s ≤ max_score
  ∧ (ended_early s = true → 60 ≤ score s).
Proof.
  assert (Hscore : ∀ s0,
    score s0 = POINTS_PER_QUESTION * Z.of_nat (correct_answers s0) →
    current_question_idx s0 = Z.of_nat (length (history s0)) →
    current_question_idx s0 ≤ total_questions s0 →
    total_questions s0 ≤ TOTAL_QUESTIONS →
    0 ≤ score s0 ≤ max_score).
  { intros s0 Hs Hi Hle Htot. pose proof (correct_answers_le s0).
    unfold max_score, POINTS_PER_QUESTION, TOTAL_QUESTIONS in *. lia. }
  induction 1 as [d sample s Hinit
                 |s rng Hs IH Hfin
                 |s c row sel s' Hs IH Hfin Hrow Hsub
                 |s Hs IH Hfin Hcan].
  - unfold init_session_state in Hinit.
    destruct (Z.of_nat (length df) =? 0) eqn:Hlen; [done|].
    apply Z.eqb_neq in Hlen. injection Hinit as <-. cbn.
    unfold max_score, POINTS_PER_QUESTION, TOTAL_QUESTIONS.
    repeat split; try done; try lia.
  - destruct (ensure_current_options_session df s rng)
      as (Ho & Hi & Ht & Hsc & Hh & He & Hd).
    unfold correct_answers. rewrite Hi, Ht, Hsc, Hh, He. exact IH.
  - destruct IH as (Hsc & Hi & Hq & Hle & Htot & Hrows & Hbound & He).
    unfold handle_submission in Hsub.
    destruct sel as [opt|]; [|injection Hsub as <-; done].
    destruct (loc df (row_idx opt)) as [selected_row|]; [|done].
    injection Hsub as <-.
    unfold has_finished in Hfin. apply orb_false_elim in Hfin as [Hfin He'].
    apply Z.leb_gt in Hfin.
    assert (Hsc' : score s + score_answer (bool_decide (row_idx opt = c))
      = POINTS_PER_QUESTION
        * Z.of_nat (length (List.filter is_correct
            (history s ++ [mkHistoryEntry (current_question_idx s + 1)
               (label opt) (build_option_label row)
               (bool_decide (row_idx opt = c))])))).
    { rewrite List.filter_app, length_app. cbn [List.filter is_correct].
      unfold correct_answers in Hsc. rewrite Hsc. unfold score_answer.
      destruct (bool_decide (row_idx opt = c)); cbn [length];
        unfold POINTS_PER_QUESTION; lia. }
    assert (Hi' : current_question_idx s + 1
      = Z.of_nat (length (history s ++ [mkHistoryEntry
          (current_question_idx s + 1) (label opt) (build_option_label row)
          (bool_decide (row_idx opt = c))]))).
    { rewrite length_app. cbn [length]. lia. }
    cbn [score current_question_idx history total_questions ended_early].
    unfold correct_answers. cbn [history].
    split; [exact Hsc'|]. split; [exact Hi'|]. split.
    { intros i entry Hentry.
      apply lookup_app_Some in Hentry as [Hentry|[Hge Hentry]]; [eauto|].
      destruct (i - length (history s))%nat as [|k] eqn:Hk; [|done].
      injection Hentry as <-. cbn. lia. }
    split; [lia|]. split; [done|]. split; [done|].
    split; [|by rewrite He'].
    apply (Hscore (mkSession (question_order s) (current_question_idx s + 1)
             (total_questions s)
             (score s + score_answer (bool_decide (row_idx opt = c)))
             (history s ++ [mkHistoryEntry (current_question_idx s + 1)
                (label opt) (build_option_label row)
                (bool_decide (row_idx opt = c))])
             None (ended_early s) (difficulty s)));
      cbn; [exact Hsc' | exact Hi' | lia | done].
  - destruct IH as (Hsc & Hi & Hq & Hle & Htot & Hrows & Hbound & He).
    unfold has_finished in Hfin. apply orb_false_elim in Hfin as [Hfin _].
    apply Z.leb_gt in Hfin.
    cbn. unfold correct_answers in *. cbn.
    repeat split; try done; try lia.
Qed.

(** X13. A quiz is only ever ended early with a score of at least 60: the
    other way [can_end] could hold, being past the last question, does
    not occur while the quiz is not finished. *)
Theorem ended_early_needs_sixty df s :
  quiz_session df s → ended_early s = true → 60 ≤ score s.
Proof. intros Hs. pose proof (quiz_session_facts df s Hs). tauto. Qed.

(** X11. Throughout a quiz the score is [POINTS_PER_QUESTION] times the
    number of correct answers in the history, one history entry is kept
    per question answered and numbered from 1, the quiz never goes past
    [total_questions], which is at most [TOTAL_QUESTIONS] and at most the
    number of rows, and the score never exceeds [max_score()]. *)
Theorem quiz_session_invariant df s :
  quiz_session df s →
  score s = POINTS_PER_QUESTION * Z.of_nat (correct_answers s)
  ∧ current_question_idx s = Z.of_nat (length (history s))
  ∧ (∀ i entry, history s !! i = Some entry →
       question entry = Z.of_nat i + 1)
  ∧ current_question_idx s ≤ total_questions s
  ∧ total_questions s ≤ TOTAL_QUESTIONS
  ∧ total_questions s ≤ Z.of_nat (length df)
  ∧ 0 ≤ score s ≤ max_score.
Proof. intros Hs. pose proof (quiz_session_facts df s Hs). tauto. Qed.

(** X12. A quiz on a frame of at least two rows with pairwise distinct
    labels, whose question order has [total_questions] entries that are
    labels of the frame, serves every question: while the quiz is not
    finished the current row is found and [ensure_current_options] returns
    options, [min(10, len(df))] of them when it generates them. *)
Theorem quiz_question_is_served df s (rng : G) :
  quiz_session df s →
  has_finished s = false →
  NoDup (index df) → (2 ≤ length df)%nat →
  Z.of_nat (length (question_order s)) = total_questions s →
  Forall (λ idx, idx ∈ index df) (question_order s) →
  (∃ correct_name correct_row,
     get_current_dataframe_row df s = AOk (correct_name, correct_row))
  ∧ ∃ options,
      (ensure_current_options df s rng).1 = AOk options
      ∧ (current_options s = None →
         Z.of_nat (length options) = Z.min 10 (Z.of_nat (length df))).
Proof.
  intros Hs Hfin Hnd Hrows Hlen Hlabels.
  pose proof (quiz_session_facts df s Hs)
    as (_ & Hi & _ & _ & _ & _ & _ & _).
  unfold has_finished in Hfin. apply orb_false_elim in Hfin as [Hfin _].
  apply Z.leb_gt in Hfin.
  assert (Hget : ∃ c, list_getitem (question_order s)
                        (current_question_idx s) = Some c
                      ∧ c ∈ index df) .
  { rewrite Hi, list_getitem_lookup.
    destruct (lookup_lt_is_Some_2 (question_order s)
                (length (history s))) as [c Hc]; [lia|].
    exists c. split; [done|].
    rewrite Forall_forall in Hlabels. apply Hlabels.
    by eapply list_elem_of_lookup_2. }
  destruct Hget as (c & Hget & Hc). split.
  - unfold get_current_dataframe_row. rewrite Hget.
    apply loc_is_Some in Hc as [row Hrow]. rewrite Hrow. eauto.
  - unfold ensure_current_options.
    destruct (current_options s) as [cached|]; [by exists cached|].
    rewrite Hget.
    pose proof (generate_options_outcome df c
                  (Z.min 10 (Z.of_nat (length df))) (difficulty s) rng)
      as Hout.
    cbv zeta in Hout. rewrite (distinct_labels_NoDup df Hnd) in Hout.
    destruct (generate_options df c _ (difficulty s) rng).1
      as [options|[| |]] eqn:Hrun.
    + destruct Hout as (_ & _ & _ & Hlen' & _).
      assert (Hcheck : (Z.of_nat (length options)
                        =? Z.min 10 (Z.of_nat (length df))) = true)
        by (apply Z.eqb_eq; lia).
      rewrite Hcheck. cbn. exists options. split; [done|]. intros _. lia.
    + subst df. simpl in Hrows. lia.
    + tauto.
    + lia.
Qed.

End ApplicationFacts.

(** * Labels from file names: properties *)

Lemma string_app_cons c (a b : string) :
  String c a +:+ b = String c (a +:+ b).
Proof. reflexivity. Qed.

Lemma string_app_nil_r (s : string) : s +:+ "" = s.
Proof.
  induction s as [|c s IH]; [done|]. by rewrite string_app_cons, IH.
Qed.

Lemma string_app_assoc (a b c : string) : (a +:+ b) +:+ c = a +:+ (b +:+ c).
Proof.
  induction a as [|x a IH]; [done|]. by rewrite !string_app_cons, IH.
Qed.

Lemma string_length_app (a b : string) :
  String.length (a +:+ b) = (String.length a + String.length b)%nat.
Proof.
  induction a as [|x a IH]; [done|]. rewrite string_app_cons. cbn.
  by rewrite IH.
Qed.

Lemma substring_app_prefix (a b : string) :
  substring 0 (String.length a) (a +:+ b) = a.
Proof.
  induction a as [|x a IH]; [by destruct b|].
  rewrite string_app_cons. cbn. by rewrite IH.
Qed.

Lemma substring_prefix (n : nat) (s : string) :
  ∃ tail, s = substring 0 n s +:+ tail.
Proof.
  revert s. induction n as [|n IH]; intros s.
  - exists s. by destruct s.
  - destruct s as [|c s]; [by exists ""|].
    destruct (IH s) as [tail Htail]. exists tail. cbn.
    by rewrite string_app_cons, <- Htail.
Qed.

Lemma substring_length (n : nat) (s : string) :
  (n ≤ String.length s)%nat → String.length (substring 0 n s) = n.
Proof.
  revert s. induction n as [|n IH]; intros s Hn.
  - by destruct s.
  - destruct s as [|c s]; cbn in *; [lia|]. rewrite IH; lia.
Qed.

Lemma str_split_nonempty sep s : ∃ part parts, str_split sep s = part :: parts.
Proof.
  induction s as [|c s (part & parts & IH)]; simpl; [eauto|].
  destruct (Ascii.eqb c sep); [eauto|]. rewrite IH. eauto.
Qed.

Lemma str_split_sep sep s :
  str_split sep (String sep s) = "" :: str_split sep s.
Proof. simpl. by rewrite Ascii.eqb_refl. Qed.

(** Splitting after a stretch free of the separator. *)
Lemma str_split_app sep (a b part : string) parts :
  sep ∉ list_ascii_of_string a →
  str_split sep b = part :: parts →
  str_split sep (a +:+ b) = (a +:+ part) :: parts.
Proof.
  intros Ha Hb. induction a as [|c a IH]; [done|].
  cbn in Ha. apply not_elem_of_cons in Ha as [Hc Ha].
  rewrite !string_app_cons. cbn.
  destruct (Ascii.eqb c sep) eqn:Heq; [by apply Ascii.eqb_eq in Heq|].
  by rewrite IH.
Qed.

(** The first part holds no separator, and what follows it in the string
    is a separator and the string the other parts come from. *)
Lemma str_split_inv sep s part parts :
  str_split sep s = part :: parts →
  (sep ∉ list_ascii_of_string part)
  ∧ ((parts = [] ∧ s = part)
     ∨ ∃ rest, s = part +:+ String sep rest ∧ str_split sep rest = parts).
Proof.
  revert part parts. induction s as [|c s IH]; intros part parts; simpl.
  - intros [= <- <-]. split; [apply not_elem_of_nil | by left].
  - destruct (Ascii.eqb c sep) eqn:Heq.
    + apply Ascii.eqb_eq in Heq as ->. intros [= <- <-].
      split; [apply not_elem_of_nil|]. right. by exists s.
    + apply Ascii.eqb_neq in Heq.
      destruct (str_split_nonempty sep s) as (p & ps & Hs). rewrite Hs.
      intros [= <- <-]. destruct (IH p ps Hs) as [Hp Hrest].
      split; [cbn; apply not_elem_of_cons; by split|].
      destruct Hrest as [[-> ->]|(rest & -> & Hps)]; [by left|].
      right. exists rest. by rewrite string_app_cons.
Qed.

Lemma isdigit_no_underscore (s : string) :
  isdigit s = true → "_"%char ∉ list_ascii_of_string s.
Proof.
  unfold isdigit. intros [_ Hall]%andb_prop Hin.
  rewrite forallb_forall in Hall. apply list_elem_of_In, Hall in Hin.
  by vm_compute in Hin.
Qed.

(** X14. A name made of a make and a model free of underscores and a year
    of four digits, joined by underscores and followed by anything, is
    parsed back into that make, model and year. *)
Theorem parse_metadata_round_trip make model year tail :
  ("_"%char ∉ list_ascii_of_string make) →
  ("_"%char ∉ list_ascii_of_string model) →
  String.length year = 4%nat → isdigit year = true →
  parse_metadata_from_filename
    (make +:+ "_" +:+ model +:+ "_" +:+ year +:+ tail)
  = Ok (make, model, year).
Proof.
  intros Hmake Hmodel Hlen Hdigits.
  destruct (str_split_nonempty "_" tail) as (part & parts & Htail).
  pose proof (str_split_app "_" year tail part parts
                (isdigit_no_underscore year Hdigits) Htail) as Hyear.
  pose proof (str_split_app "_" model ("_" +:+ year +:+ tail) "" _ Hmodel
                (str_split_sep "_" (year +:+ tail))) as Hm.
  rewrite string_app_nil_r, Hyear in Hm.
  pose proof (str_split_app "_" make ("_" +:+ model +:+ "_" +:+ year +:+ tail)
                "" _ Hmake
                (str_split_sep "_" (model +:+ "_" +:+ year +:+ tail))) as Hk.
  rewrite string_app_nil_r, Hm in Hk.
  unfold parse_metadata_from_filename. rewrite Hk. cbn [length Nat.ltb Nat.leb].
  unfold first_year.
  assert (Hsub : substring 0 4 (year +:+ part) = year)
    by (rewrite <- Hlen; apply substring_app_prefix).
  rewrite Hsub, Hdigits, string_length_app, Hlen. cbn [Nat.add Nat.leb andb].
  unfold isdigit in Hdigits. apply andb_prop in Hdigits as [-> _]. done.
Qed.

(** X15. Whatever (ASCII) name is parsed, the make and the model returned
    hold no underscore, the year returned is four digits, and the name
    starts with make, model and year joined by underscores. *)
Theorem parse_metadata_format name make model year :
  ascii_only name = true →
  parse_metadata_from_filename name = Ok (make, model, year) →
  ("_"%char ∉ list_ascii_of_string make)
  ∧ ("_"%char ∉ list_ascii_of_string model)
  ∧ String.length year = 4%nat
  ∧ isdigit year = true
  ∧ ∃ tail, name = make +:+ "_" +:+ model +:+ "_" +:+ year +:+ tail.
Proof.
  intros _. unfold parse_metadata_from_filename.
  destruct (length _ <? 3)%nat; [done|].
  destruct (str_split "_" name) as [|mk [|md [|yt rest]]] eqn:Hsplit;
    try done.
  remember (first_year [yt; substring 0 4 yt]) as yr eqn:Hyr.
  destruct (negb (truthy yr)) eqn:Hyear; [done|]. intros [= <- <- <-].
  destruct (str_split_inv _ _ _ _ Hsplit) as [Hmk [[? _]|(r1 & -> & Hr1)]];
    [done|].
  destruct (str_split_inv _ _ _ _ Hr1) as [Hmd [[? _]|(r2 & -> & Hr2)]];
    [done|].
  destruct (str_split_inv _ _ _ _ Hr2) as [_ Hyt].
  assert (Htail : ∃ tail, r2 = yt +:+ tail).
  { destruct Hyt as [[_ ->]|(r3 & -> & _)]; [exists ""|eauto].
    by rewrite string_app_nil_r. }
  destruct Htail as [tail ->].
  assert (Hfirst : ∃ token,
    yr = substring 0 4 token
    ∧ (4 ≤ String.length token)%nat
    ∧ isdigit (substring 0 4 token) = true
    ∧ ∃ tl, yt = substring 0 4 token +:+ tl).
  { unfold first_year in Hyr.
    destruct ((4 <=? String.length yt)%nat && isdigit (substring 0 4 yt))
      eqn:H1.
    - apply andb_prop in H1 as [Hl Hd]. apply Nat.leb_le in Hl.
      exists yt. repeat split; try done. apply substring_prefix.
    - destruct ((4 <=? String.length (substring 0 4 yt))%nat
                && isdigit (substring 0 4 (substring 0 4 yt))) eqn:H2.
      + apply andb_prop in H2 as [Hl Hd]. apply Nat.leb_le in Hl.
        exists (substring 0 4 yt). repeat split; try done.
        destruct (substring_prefix 4 (substring 0 4 yt)) as [t1 Ht1].
        destruct (substring_prefix 4 yt) as [t2 Ht2].
        exists (t1 +:+ t2). rewrite <- string_app_assoc, <- Ht1. exact Ht2.
      + subst yr. done. }
  destruct Hfirst as (token & Hyr' & Hl & Hd & tl & Hyt').
  rewrite Hyr'.
  split; [done|]. split; [done|].
  split; [by apply substring_length|]. split; [done|].
  exists (tl +:+ tail). rewrite Hyt' at 1.
  by rewrite !string_app_assoc.
Qed.

(** * The CSV logs: properties *)

Lemma append_rows_cons file columns row rows :
  append_rows file columns (row :: rows)
  = append_rows (_append_row file columns row).2 columns rows.
Proof. reflexivity. Qed.

Lemma append_row_existing line lines columns row :
  _append_row (Some (line :: lines)) columns row
  = if decide (dom row ⊆ list_to_set columns)
    then (Ok (), Some (line :: lines ++ [csv_line columns row]))
    else (Raise ValueError, Some (line :: lines)).
Proof. reflexivity. Qed.

Lemma append_rows_existing line lines columns rows :
  append_rows (Some (line :: lines)) columns rows
  = Some (line :: lines
          ++ (csv_line columns <$>
              filter (λ row, dom row ⊆ list_to_set columns) rows)).
Proof.
  revert lines. induction rows as [|row rows IH]; intros lines.
  - by rewrite filter_nil, app_nil_r.
  - rewrite append_rows_cons, append_row_existing.
    destruct (decide (dom row ⊆ list_to_set columns)).
    + cbn [snd]. rewrite IH, filter_cons_True by done.
      by rewrite fmap_cons, <- app_assoc.
    + cbn [snd]. rewrite IH, filter_cons_False by done. done.
Qed.

(** X16. A log started on a missing or empty file holds the header once,
    as its first line, followed by one line per row written, in order; a
    row with a key that is no column raises [ValueError] and adds no line
    (on a new file the header is there all the same).  A log that already
    has a line only grows at its end, without another header.  Every line
    written has one cell per column. *)
Theorem append_rows_header_once columns rows file :
  (file = None ∨ file = Some [] → rows ≠ [] →
   append_rows file columns rows
   = Some (columns
           :: (csv_line columns <$>
               filter (λ row, dom row ⊆ list_to_set columns) rows)))
  ∧ (∀ line lines, file = Some (line :: lines) →
     append_rows file columns rows
     = Some (line :: lines
             ++ (csv_line columns <$>
                 filter (λ row, dom row ⊆ list_to_set columns) rows)))
  ∧ (∀ row, (_append_row file columns row).1 = Raise ValueError ↔
            ¬ dom row ⊆ list_to_set columns)
  ∧ (∀ row, length (csv_line columns row) = length columns).
Proof.
  split; [|split; [|split]].
  - intros Hfile Hrows. destruct rows as [|row rows]; [done|].
    assert (Hfirst : (_append_row file columns row).2
      = Some (columns :: (if decide (dom row ⊆ list_to_set columns)
                          then [csv_line columns row] else []))).
    { unfold _append_row.
      destruct Hfile as [-> | ->]; cbn [default app];
        by destruct (decide (dom row ⊆ list_to_set columns)). }
    rewrite append_rows_cons, Hfirst, append_rows_existing.
    destruct (decide (dom row ⊆ list_to_set columns)).
    + by rewrite filter_cons_True by done.
    + by rewrite filter_cons_False by done.
  - intros line lines ->. apply append_rows_existing.
  - intros row. unfold _append_row.
    destruct (decide (dom row ⊆ list_to_set columns)); cbn [fst];
      split; done.
  - intros row. unfold csv_line. apply length_fmap.
Qed.

(** * The further properties at sample inputs *)

Definition kia_rio : Row := sample_row "Kia" "Rio" "2011".

(** Seven rows of one make. *)
Definition seven_frame : DataFrame :=
  [(0, sample_row "Kia" "Rio" "2011");
   (1, sample_row "Kia" "Soul" "2012");
   (2, sample_row "Kia" "Optima" "2013");
   (3, sample_row "Kia" "Sorento" "2014");
   (4, sample_row "Kia" "Forte" "2015");
   (5, sample_row "Kia" "Cadenza" "2016");
   (6, sample_row "Kia" "Sedona" "2017")].

Definition sample_session : Session :=
  mkSession [3; 1; 4; 0; 2] 0 5 0 [] None false "medium".

(** The option a player picks: the record [idx] of [df] (with no row,
    an option of empty label). *)
Definition option_for (df : DataFrame) (idx : Z) : OptionItem :=
  mkOptionItem idx (from_option build_option_label "" (loc df idx)).

(** The session after the current question is answered with the correct
    record (the session itself when the question cannot be served). *)
Definition answer_correctly (df : DataFrame) (s : Session) : Session :=
  match get_current_dataframe_row df s with
  | AOk (idx, row) =>
      match handle_submission df idx row (Some (option_for df idx)) s with
      | AOk s' => s'
      | ARaise _ => s
      end
  | ARaise _ => s
  end.

Definition seven_session : Session :=
  mkSession [3; 1; 4; 0; 2; 6; 5] 0 7 0 [] None false "hard".

Lemma candidate_indices_exact_witness :
  NoDup (_candidate_indices mixed_frame (same_year_mask 10 kia_rio) {[10]}).
Proof.
  apply (candidate_indices_exact mixed_frame (same_year_mask 10 kia_rio)
           {[10]}).
  by_evaluation.
Defined.

Lemma try_add_quota_witness :
  Z.of_nat (size (try_add mixed_frame kia_rio 5 (same_year_mask 10 kia_rio)
                    1 false ({[10]}, (3 : Z))).1) ≤ 5.
Proof.
  apply (try_add_quota mixed_frame kia_rio 5 (same_year_mask 10 kia_rio)
           1 false ({[10]}, (3 : Z))).
  by_evaluation.
Defined.

Lemma same_make_adds_same_make_witness :
  ∃ row, loc mixed_frame 14 = Some row ∧ make_en row = "Kia".
Proof.
  apply (same_make_adds_same_make mixed_frame 10 kia_rio 5 "EASY" (3 : Z) 14).
  - by_evaluation.
  - by_evaluation.
  - done.
Defined.

Lemma fill_easy_prefers_other_makes_witness :
  4 ∈ (fill sample_frame kia_rio 5 "easy" ({[0]}, (42 : Z))).1.
Proof.
  apply (fill_easy_prefers_other_makes sample_frame kia_rio 5
           ({[0]}, (42 : Z)) 1).
  - by_evaluation.
  - by_evaluation.
  - reflexivity.
  - by_evaluation.
  - by_evaluation.
Defined.

Lemma fill_hard_prefers_same_make_witness :
  1 ∈ (fill sample_frame kia_rio 5 "hard" ({[0]}, (42 : Z))).1.
Proof.
  apply (fill_hard_prefers_same_make sample_frame kia_rio 5
           ({[0]}, (42 : Z)) 4).
  - by_evaluation.
  - by_evaluation.
  - by_evaluation.
  - by_evaluation.
  - reflexivity.
Defined.

Lemma generate_options_labels_witness :
  ∃ items rng',
    generate_options sample_frame 0 4 "medium" (42 : Z) = (Ok items, rng')
    ∧ Forall (λ it, ∃ row, loc sample_frame (row_idx it) = Some row
                           ∧ label it = build_option_label row) items.
Proof.
  eexists _, _. split; [vm_compute; reflexivity|].
  eapply (generate_options_labels sample_frame 0 4 "medium" (42 : Z)).
  vm_compute. reflexivity.
Defined.

Lemma generate_options_whole_frame_witness :
  ∃ items rng',
    generate_options sample_frame 0 10 "easy" (42 : Z) = (Ok items, rng')
    ∧ row_idx <$> items ≡ₚ index sample_frame.
Proof.
  apply (generate_options_whole_frame sample_frame 0 10 "easy" (42 : Z)).
  - by_evaluation.
  - simpl. lia.
  - apply list_elem_of_here.
  - simpl. lia.
Defined.

Lemma same_make_quota_decides_witness :
  ∃ items rng',
    generate_options sample_frame 0 4 "medium" (42 : Z) = (Ok items, rng')
    ∧ Forall (λ it, ∃ row, loc sample_frame (row_idx it) = Some row
                           ∧ make_en row = "Kia") items.
Proof.
  eexists _, _. split; [vm_compute; reflexivity|].
  eapply (same_make_quota_decides sample_frame 0 kia_rio 4 "medium" (42 : Z)).
  - by_evaluation.
  - reflexivity.
  - by vm_compute.
  - by vm_compute.
  - vm_compute. reflexivity.
Defined.

Lemma ensure_current_options_outcome_witness :
  ∃ options s',
    ensure_current_options sample_frame sample_session (42 : Z)
      = (AOk options, s')
    ∧ current_options s' = Some options
    ∧ Z.of_nat (length options) = 5.
Proof.
  pose proof (ensure_current_options_outcome sample_frame sample_session
                (42 : Z)) as Hout.
  destruct (ensure_current_options sample_frame sample_session (42 : Z))
    as [[options|e] s'] eqn:Hrun; [|by vm_compute in Hrun].
  exists options, s'. destruct Hout as [Hstored Hfresh].
  split; [done|]. split; [done|]. by apply Hfresh.
Defined.

Lemma exactly_one_option_scores_witness :
  ∃ options rng',
    generate_options sample_frame 0 4 "medium" (42 : Z) = (Ok options, rng')
    ∧ length (filter (λ opt, row_idx opt = 0) options) = 1%nat.
Proof.
  eexists _, _. split; [vm_compute; reflexivity|].
  eapply (exactly_one_option_scores sample_frame 0 kia_rio 4 "medium"
            (42 : Z) _ _ sample_session).
  vm_compute. reflexivity.
Defined.

(** Answering the current question correctly keeps a quiz a quiz. *)
Lemma quiz_session_answer_correctly df s :
  quiz_session (G := Z) df s → has_finished s = false →
  quiz_session (G := Z) df (answer_correctly df s).
Proof.
  intros Hs Hfin. unfold answer_correctly.
  destruct (get_current_dataframe_row df s) as [[idx row]|] eqn:Hrow; [|done].
  destruct (handle_submission df idx row _ s) as [s'|] eqn:Hsub; [|done].
  by eapply quiz_answered.
Qed.

Lemma quiz_session_six_correct :
  quiz_session (G := Z) seven_frame
    (Nat.iter 6 (answer_correctly seven_frame) seven_session).
Proof.
  do 6 (apply quiz_session_answer_correctly; [|reflexivity]).
  by apply (quiz_started _ "hard" [3; 1; 4; 0; 2; 6; 5]).
Qed.

Lemma quiz_session_invariant_witness :
  let s := Nat.iter 6 (answer_correctly seven_frame) seven_session in
  score s = POINTS_PER_QUESTION * Z.of_nat (correct_answers s)
  ∧ current_question_idx s = Z.of_nat (length (history s))
  ∧ (∀ i entry, history s !! i = Some entry →
       question entry = Z.of_nat i + 1)
  ∧ current_question_idx s ≤ total_questions s
  ∧ total_questions s ≤ TOTAL_QUESTIONS
  ∧ total_questions s ≤ Z.of_nat (length seven_frame)
  ∧ 0 ≤ score s ≤ max_score.
Proof.
  apply (quiz_session_invariant (G := Z) seven_frame).
  exact quiz_session_six_correct.
Defined.

Lemma quiz_question_is_served_witness :
  (∃ correct_name correct_row,
     get_current_dataframe_row seven_frame seven_session
       = AOk (correct_name, correct_row))
  ∧ ∃ options,
      (ensure_current_options seven_frame seven_session (42 : Z)).1
        = AOk options
      ∧ (current_options seven_session = None →
         Z.of_nat (length options)
         = Z.min 10 (Z.of_nat (length seven_frame))).
Proof.
  apply (quiz_question_is_served seven_frame seven_session (42 : Z)).
  - by apply (quiz_started _ "hard" [3; 1; 4; 0; 2; 6; 5]).
  - reflexivity.
  - by_evaluation.
  - simpl. lia.
  - reflexivity.
  - by_evaluation.
Defined.

Lemma ended_early_needs_sixty_witness :
  let s := Nat.iter 6 (answer_correctly seven_frame) seven_session in
  60 ≤ score (mkSession (question_order s) (current_question_idx s)
                (total_questions s) (score s) (history s)
                (current_options s) true (difficulty s)).
Proof.
  apply (ended_early_needs_sixty (G := Z) seven_frame).
  - apply quiz_ended; [exact quiz_session_six_correct | reflexivity..].
  - reflexivity.
Defined.

Lemma parse_metadata_round_trip_witness :
  parse_metadata_from_filename
    ("Acura" +:+ "_" +:+ "ILX" +:+ "_" +:+ "2013" +:+ "_28_16_FWD_4dr_aWg")
  = Ok ("Acura", "ILX", "2013").
Proof.
  apply (parse_metadata_round_trip "Acura" "ILX" "2013" "_28_16_FWD_4dr_aWg").
  - by_evaluation.
  - by_evaluation.
  - reflexivity.
  - reflexivity.
Defined.

Lemma parse_metadata_format_witness :
  ("_"%char ∉ list_ascii_of_string "Mercedes-Benz")
  ∧ ("_"%char ∉ list_ascii_of_string "C Class")
  ∧ String.length "2019" = 4%nat
  ∧ isdigit "2019" = true
  ∧ ∃ tail, "Mercedes-Benz_C Class_2019b_4dr"
            = "Mercedes-Benz" +:+ "_" +:+ "C Class" +:+ "_" +:+ "2019"
              +:+ tail.
Proof.
  apply (parse_metadata_format "Mercedes-Benz_C Class_2019b_4dr"
           "Mercedes-Benz" "C Class" "2019"); reflexivity.
Defined.

Lemma append_rows_header_once_witness :
  append_rows None ["session_id"; "score"]
    [{["session_id" := "ab12"]}; {["points" := "10"]};
     {["score" := "20"; "session_id" := "ab12"]}]
  = Some (["session_id"; "score"]
          :: (csv_line ["session_id"; "score"] <$>
              filter (λ row, dom row ⊆ list_to_set ["session_id"; "score"])
                [{["session_id" := "ab12"]}; {["points" := "10"]};
                 {["score" := "20"; "session_id" := "ab12"]}])).
Proof.
  apply (append_rows_header_once ["session_id"; "score"]
           [{["session_id" := "ab12"]}; {["points" := "10"]};
            {["score" := "20"; "session_id" := "ab12"]}] None).
  - by left.
  - done.
Defined.
